(** * generate_plot.py: the ELO distribution chart

    A shallow embedding of [generate_plot.py].  The script loads a list of
    team records, evaluates one normal density per team over a fixed grid,
    rescales it, picks the styling of the curve from the position of the team
    in the list, draws everything on one set of axes, fixes the axis limits
    and saves the figure.

    Modelling conventions.
    - Python floats that enter arithmetic ([mean_elo], [std_dev], the sample
      grid, the curve values, the axis limits) are real numbers [R]; rounding
      is not modelled, and neither is underflow: the real [exp] is positive
      everywhere, while the float one is exactly 0 far out in the tails, so
      what is proved of drawn values is a bound that both satisfy.  The one
      float value with its own behaviour, NaN, is kept: a curve value is an
      [option R] and [None] is NaN.
    - The styling literals ([2.5], [1.8], [0.9], [0.7], [0.1]) never enter
      arithmetic; they are rationals [Q], so that they can be compared by
      evaluation.
    - The loop index is a [nat], the [rank] field an integer [Z], text a
      [string].
    - The figure is the explicit value [Axes] that the calls on [ax] build up;
      [main] threads it through the statements of the script in order. *)

From Stdlib Require Import Reals Lra Lia ZArith QArith Bool.
From Stdlib Require Import String Ascii DecimalString DecimalZ DecimalPos.
From Stdlib Require Import List Sorted.
Import ListNotations.

Open Scope R_scope.

(** ** Input records *)

(** One element of [teams], the list read from [top20.json]. *)
Record team : Type := mk_team {
  rank : Z;
  team_name : string;
  mean_elo : R;
  std_dev : R
}.

(** ** Library functions used by the script *)

Module np.

(** [np.linspace(start, stop, num)]: [num] evenly spaced samples,
    [start + j * step] with [step = (stop - start) / (num - 1)]. *)
Definition linspace (start stop : R) (num : nat) : list R :=
  let step := (stop - start) / INR (num - 1) in
  map (fun j => start + INR j * step) (seq 0 num).

End np.

Module stats.

(** The standard normal density, [norm._pdf]. *)
Definition _norm_pdf (z : R) : R := exp (- (z * z) / 2) / sqrt (2 * PI).

(** [stats.norm.pdf(x, loc, scale)] at one point.  The library standardises
    the argument, evaluates [_norm_pdf] and divides by [scale]; wherever
    [scale > 0] does not hold the entry of the result is NaN (no exception
    is raised). *)
Definition norm_pdf (x loc scale : R) : option R :=
  if Rlt_dec 0 scale
  then Some (_norm_pdf ((x - loc) / scale) / scale)
  else None.

End stats.

(** ** The curve of one team *)

(** [x = np.linspace(1200, 2600, 500)] *)
Definition x : list R := np.linspace 1200 2600 500.

(** [pdf_scaled = pdf * std * 2.5], at one sample; NaN stays NaN. *)
Definition pdf_scaled_at (x0 mean std : R) : option R :=
  option_map (fun p => p * std * 2.5) (stats.norm_pdf x0 mean std).

(** [pdf_scaled], the whole array. *)
Definition pdf_scaled (mean std : R) : list (option R) :=
  map (fun x0 => pdf_scaled_at x0 mean std) x.

(** ** Styling tables and the per-index style rules *)

Open Scope string_scope.

Definition colors : list string := [
  "#1f77b4"; "#ff7f0e"; "#2ca02c"; "#d62728"; "#9467bd";
  "#8c564b"; "#e377c2"; "#7f7f7f"; "#bcbd22"; "#17becf";
  "#aec7e8"; "#ffbb78"; "#98df8a"; "#ff9896"; "#c5b0d5";
  "#c49c94"; "#f7b6d2"; "#c7c7c7"; "#dbdb8d"; "#9edae5"
].

Definition line_styles : list string := ["-"; "--"; "-."; ":"].

(** [colors[i % len(colors)]]; the index is always in range, the default of
    [nth] is never returned. *)
Definition color_of (i : nat) : string :=
  nth (i mod List.length colors) colors EmptyString.

(** [line_styles[(i // 10) % len(line_styles)]] *)
Definition linestyle_of (i : nat) : string :=
  nth ((i / 10) mod List.length line_styles) line_styles EmptyString.

(** [2.5 if i < 6 else 1.8] *)
Definition linewidth_of (i : nat) : Q := if (i <? 6)%nat then 2.5%Q else 1.8%Q.

(** [0.9 if i < 6 else 0.7] *)
Definition alpha_of (i : nat) : Q := if (i <? 6)%nat then 0.9%Q else 0.7%Q.

(** ** Legend labels *)

Module str.

(** [s.replace(old, '')] for a non-empty [old]: one scan from the left;
    where [old] starts at the current position its characters are skipped
    ([skip] counts the ones still to drop), otherwise the character is
    kept.  Text produced by a removal is not scanned again. *)
Fixpoint remove_from (old : string) (skip : nat) (s : string) : string :=
  match s with
  | EmptyString => EmptyString
  | String c s' =>
      match skip with
      | S k => remove_from old k s'
      | O =>
          if prefix old s
          then remove_from old (String.length old - 1) s'
          else String c (remove_from old 0 s')
      end
  end.

(** [s.replace(old, '')]; with an empty [old] the text is unchanged. *)
Definition remove (old s : string) : string :=
  match old with
  | EmptyString => s
  | _ => remove_from old 0 s
  end.

(** [sub in s] *)
Fixpoint contains (sub s : string) : bool :=
  prefix sub s ||
  match s with
  | EmptyString => false
  | String _ s' => contains sub s'
  end.

(** [str(n)] for an integer. *)
Definition of_int (n : Z) : string := NilZero.string_of_int (Z.to_int n).

End str.

(** The suffixes of the [replace] chain, in the order of the calls. *)
Definition suffixes : list string := [
  " Crimson Tide"; " Volunteers";
  " Blue Devils"; " Spartans"; " Cougars";
  " Wildcats"; " Red Storm"; " Tigers";
  " Terrapins"; " Owls"; " Wolverines";
  " Aggies"; " Razorbacks"; " Rebels";
  " Red Raiders"; " Gators"
].

(** [name]: the chain of [replace] calls applied to [team_name]. *)
Definition short_name (t : team) : string :=
  fold_left (fun s old => str.remove old s) suffixes (team_name t).

(** [label = f"{team['rank']}. {name}"] *)
Definition label_of (t : team) : string :=
  str.of_int (rank t) ++ ". " ++ short_name t.

Close Scope string_scope.

(** ** The figure *)

(** An artist added by [ax.plot]. *)
Record Line2D : Type := mk_Line2D {
  l_xdata : list R;
  l_ydata : list (option R);
  l_color : string;
  l_linestyle : string;
  l_linewidth : Q;
  l_alpha : Q;
  l_label : string
}.

(** An artist added by [ax.fill_between(x, y1, ...)]; the second boundary is
    the default, the constant 0. *)
Record PolyCollection : Type := mk_PolyCollection {
  p_x : list R;
  p_y1 : list (option R);
  p_alpha : Q;
  p_color : string
}.

(** The state of [ax].  A limit that was never set is [None]: the axis is
    then autoscaled to the artists whenever the limit is read. *)
Record Axes : Type := mk_Axes {
  lines : list Line2D;
  collections : list PolyCollection;
  xlabel : string;
  ylabel : string;
  title : string;
  legend_ncol : option nat;
  grid : bool;
  xlim : option (R * R);
  ylim : option (R * R);
  texts : list string
}.

(** [fig, ax = plt.subplots(...)]: empty axes. *)
Definition subplots : Axes :=
  {| lines := []; collections := [];
     xlabel := EmptyString; ylabel := EmptyString; title := EmptyString;
     legend_ncol := None; grid := false;
     xlim := None; ylim := None; texts := [] |}.

Definition add_line (l : Line2D) (ax : Axes) : Axes :=
  {| lines := lines ax ++ [l]; collections := collections ax;
     xlabel := xlabel ax; ylabel := ylabel ax; title := title ax;
     legend_ncol := legend_ncol ax; grid := grid ax;
     xlim := xlim ax; ylim := ylim ax; texts := texts ax |}.

Definition add_collection (p : PolyCollection) (ax : Axes) : Axes :=
  {| lines := lines ax; collections := collections ax ++ [p];
     xlabel := xlabel ax; ylabel := ylabel ax; title := title ax;
     legend_ncol := legend_ncol ax; grid := grid ax;
     xlim := xlim ax; ylim := ylim ax; texts := texts ax |}.

(** *** Autoscaling of the vertical axis

    What [ax.get_ylim()] returns while no limit has been set.  The plotting
    library takes the extent of the finite data of the artists (NaN entries
    are skipped; a filled area contributes both of its boundaries), widens a
    degenerate extent ([nonsingular]) and adds the margin [axes.ymargin],
    5% of the extent by default, on both sides.  Axes without any artist
    were never autoscaled and keep the default view (0, 1).  Axes whose
    artists have no finite data are autoscaled to the extent that
    [nonsingular] returns for missing limits, (-0.05, 0.05), plus the
    margin, that is (-0.055, 0.055). *)

Module autoscale.

Definition ymargin : R := 0.05.

(** The smallest positive normal float, [np.finfo(float).tiny]. *)
Definition float_tiny : R := 2.2250738585072014e-308.

(** [transforms.nonsingular(vmin, vmax, expander, tiny)] for finite
    [vmin <= vmax]. *)
Definition nonsingular (vmin vmax expander tiny : R) : R * R :=
  let maxabsvalue := Rmax (Rabs vmin) (Rabs vmax) in
  if Rlt_dec maxabsvalue ((1e6 / tiny) * float_tiny)
  then (- expander, expander)
  else if Rle_dec (vmax - vmin) (maxabsvalue * tiny)
  then
    if Req_dec_T vmax 0
    then if Req_dec_T vmin 0
         then (- expander, expander)
         else (vmin - expander * Rabs vmin, vmax + expander * Rabs vmax)
    else (vmin - expander * Rabs vmin, vmax + expander * Rabs vmax)
  else (vmin, vmax).

(** The finite entries of an array. *)
Definition finite (ys : list (option R)) : list R :=
  flat_map (fun y => match y with Some v => [v] | None => [] end) ys.

(** The vertical data of a filled area: both boundaries, at the samples
    where the curve is not NaN. *)
Definition poly_extent (p : PolyCollection) : list R :=
  flat_map (fun y => match y with Some v => [v; 0] | None => [] end)
           (p_y1 p).

(** All finite vertical data of the axes. *)
Definition data_y (ax : Axes) : list R :=
  flat_map (fun l => finite (l_ydata l)) (lines ax)
  ++ flat_map poly_extent (collections ax).

Definition view_y (ax : Axes) : R * R :=
  match data_y ax with
  | [] =>
      match lines ax, collections ax with
      | [], [] => (0, 1)
      | _, _ =>
          let y0 := - 0.05 in
          let y1 := 0.05 in
          let delta := (y1 - y0) * ymargin in
          (y0 - delta, y1 + delta)
      end
  | v :: vs =>
      let y0 := fold_left Rmin vs v in
      let y1 := fold_left Rmax vs v in
      let '(y0, y1) := nonsingular y0 y1 0.05 1e-15 in
      let delta := (y1 - y0) * ymargin in
      (y0 - delta, y1 + delta)
  end.

End autoscale.

(** [ax.get_ylim()] *)
Definition get_ylim (ax : Axes) : R * R :=
  match ylim ax with
  | Some l => l
  | None => autoscale.view_y ax
  end.

(** [ax.set_xlim(lo, hi)] and [ax.set_ylim(lo, hi)] *)
Definition set_xlim (lo hi : R) (ax : Axes) : Axes :=
  {| lines := lines ax; collections := collections ax;
     xlabel := xlabel ax; ylabel := ylabel ax; title := title ax;
     legend_ncol := legend_ncol ax; grid := grid ax;
     xlim := Some (lo, hi); ylim := ylim ax; texts := texts ax |}.

Definition set_ylim (lo hi : R) (ax : Axes) : Axes :=
  {| lines := lines ax; collections := collections ax;
     xlabel := xlabel ax; ylabel := ylabel ax; title := title ax;
     legend_ncol := legend_ncol ax; grid := grid ax;
     xlim := xlim ax; ylim := Some (lo, hi); texts := texts ax |}.

(** ** The script *)

(** The arguments of the [ax.plot] call for the team at position [i]:
    [pdf_scaled], [color], [linestyle], [linewidth], [alpha] and [label] as
    the body of the loop computes them. *)
Definition line_of (i : nat) (t : team) : Line2D :=
  let mean := mean_elo t in
  let std := std_dev t in
  {| l_xdata := x;
     l_ydata := pdf_scaled mean std;
     l_color := color_of i;
     l_linestyle := linestyle_of i;
     l_linewidth := linewidth_of i;
     l_alpha := alpha_of i;
     l_label := label_of t |}.

(** The arguments of the [ax.fill_between] call. *)
Definition fill_of (i : nat) (t : team) : PolyCollection :=
  {| p_x := x;
     p_y1 := pdf_scaled (mean_elo t) (std_dev t);
     p_alpha := 0.1%Q;
     p_color := color_of i |}.

(** The body of the [for i, team in enumerate(teams)] loop. *)
Definition plot_team (i : nat) (t : team) (ax : Axes) : Axes :=
  let ax := add_line (line_of i t) ax in
  if (i <? 3)%nat then add_collection (fill_of i t) ax else ax.

(** The loop, from index [i] on. *)
Fixpoint plot_teams (i : nat) (teams : list team) (ax : Axes) : Axes :=
  match teams with
  | [] => ax
  | t :: rest => plot_teams (S i) rest (plot_team i t ax)
  end.

(** Labels, title, legend and grid. *)
Definition decorate (ax : Axes) : Axes :=
  {| lines := lines ax; collections := collections ax;
     xlabel := "ELO Rating";
     ylabel := "Probability Density (scaled)";
     title := ("NCAA Men's Basketball - Bayesian ELO Distributions (2025-26 Season)"
               ++ String "010" "Top 20 Teams")%string;
     legend_ncol := Some 2%nat; grid := true;
     xlim := xlim ax; ylim := ylim ax; texts := texts ax |}.

(** [ax.set_xlim(1200, 2600)] and
    [ax.set_ylim(0, ax.get_ylim()[1] * 1.05)] *)
Definition set_limits (ax : Axes) : Axes :=
  let ax := set_xlim 1200 2600 ax in
  set_ylim 0 (snd (get_ylim ax) * 1.05) ax.

(** [ax.annotate(...)] *)
Definition annotate (ax : Axes) : Axes :=
  {| lines := lines ax; collections := collections ax;
     xlabel := xlabel ax; ylabel := ylabel ax; title := title ax;
     legend_ncol := legend_ncol ax; grid := grid ax;
     xlim := xlim ax; ylim := ylim ax;
     texts := texts ax
              ++ [("Wider distributions = more uncertainty"
                   ++ String "010"
                      "Narrower distributions = more confidence in rating")%string] |}.

(** The axes as they are when [plt.savefig] is reached. *)
Definition figure_of (teams : list team) : Axes :=
  annotate (set_limits (decorate (plot_teams 0 teams subplots))).

(** A file written by [plt.savefig]. *)
Record image : Type := mk_image {
  img_path : string;
  img_dpi : nat;
  img_facecolor : string;
  img_axes : Axes
}.

Definition savefig (ax : Axes) : image :=
  {| img_path := "elo_distributions.png"; img_dpi := 150;
     img_facecolor := "white"; img_axes := ax |}.

(** The two failures that the specification of the renderer names.  The
    script has no [raise] and no check of its input. *)
Inductive exn : Type :=
| EmptyInputError
| InvalidParameterError.

(** How a run ends: the files written and the lines printed, or an
    exception. *)
Inductive outcome : Type :=
| Completed (files : list image) (stdout : list string)
| Raised (e : exn).

(** The script from the loop on, for the parsed content of the input file. *)
Definition main (teams : list team) : outcome :=
  Completed [savefig (figure_of teams)] ["Saved elo_distributions.png"%string].

(** ** The script as a transition system

    One transition per iteration of the loop and per block of statements
    after it. *)

Inductive control : Type :=
| AtLoop (i : nat) (rest : list team)
| AtStyling
| AtLimits
| AtAnnotate
| AtSave
| Halted (o : outcome).

Definition config : Type := (control * Axes)%type.

Inductive step : config -> config -> Prop :=
| step_iter i t rest ax :
    step (AtLoop i (t :: rest), ax) (AtLoop (S i) rest, plot_team i t ax)
| step_exit i ax :
    step (AtLoop i [], ax) (AtStyling, ax)
| step_styling ax :
    step (AtStyling, ax) (AtLimits, decorate ax)
| step_limits ax :
    step (AtLimits, ax) (AtAnnotate, set_limits ax)
| step_annotate ax :
    step (AtAnnotate, ax) (AtSave, annotate ax)
| step_save ax :
    step (AtSave, ax)
         (Halted (Completed [savefig ax]
                            ["Saved elo_distributions.png"%string]), ax).

Inductive steps : config -> config -> Prop :=
| steps_refl c : steps c c
| steps_cons c1 c2 c3 : step c1 c2 -> steps c2 c3 -> steps c1 c3.

(** A run on [teams] ends with outcome [o]. *)
Definition runs (teams : list team) (o : outcome) : Prop :=
  exists ax, steps (AtLoop 0 teams, subplots) (Halted o, ax).

(** ** Quantities the properties speak about *)

(** The run on [teams] ends with the exception [e] and writes no file. *)
Definition fails_with (e : exn) (teams : list team) : Prop :=
  main teams = Raised e.

(** An array that is NaN throughout. *)
Definition all_nan (ys : list (option R)) : Prop :=
  Forall (fun y => y = None) ys.

(** No suffix of the [replace] chain occurs in [s]. *)
Definition suffix_free (s : string) : bool :=
  forallb (fun old => negb (str.contains old s)) suffixes.

(** [enumerate(l, start=i)] *)
Fixpoint enumerate {A : Type} (i : nat) (l : list A) : list (nat * A) :=
  match l with
  | [] => []
  | a :: l' => (i, a) :: enumerate (S i) l'
  end.

(** The curve drawn with the emphasis of the leading teams. *)
Definition is_leading (l : Line2D) : bool :=
  Qeq_bool (l_linewidth l) 2.5 && Qeq_bool (l_alpha l) 0.9.

(** The curve drawn with the plain styling. *)
Definition is_plain (l : Line2D) : bool :=
  Qeq_bool (l_linewidth l) 1.8 && Qeq_bool (l_alpha l) 0.7.

(** The largest finite value over all drawn curves (0 when there is
    none). *)
Definition tallest_peak (ax : Axes) : R :=
  match flat_map (fun l => autoscale.finite (l_ydata l)) (lines ax) with
  | [] => 0
  | v :: vs => fold_left Rmax vs v
  end.

(** Two records that differ at most in their [rank]. *)
Definition same_but_rank (t t' : team) : Prop :=
  team_name t = team_name t' /\ mean_elo t = mean_elo t'
  /\ std_dev t = std_dev t'.

(** A curve without its legend text. *)
Definition unlabelled (l : Line2D) : Line2D :=
  {| l_xdata := l_xdata l; l_ydata := l_ydata l; l_color := l_color l;
     l_linestyle := l_linestyle l; l_linewidth := l_linewidth l;
     l_alpha := l_alpha l; l_label := EmptyString |}.

(** [s] is [s'] with some of its characters deleted, the others in their
    order. *)
Inductive subsequence : string -> string -> Prop :=
| subsequence_nil : subsequence EmptyString EmptyString
| subsequence_keep c s s' :
    subsequence s s' -> subsequence (String c s) (String c s')
| subsequence_drop c s s' :
    subsequence s s' -> subsequence s (String c s').

(** ** Facts on the density *)

Section Density.

Lemma sqrt_2PI_pos : 0 < sqrt (2 * PI).
Proof. apply sqrt_lt_R0. pose proof PI_RGT_0. lra. Qed.

Lemma _norm_pdf_0 : stats._norm_pdf 0 = 1 / sqrt (2 * PI).
Proof.
  unfold stats._norm_pdf.
  replace (- (0 * 0) / 2) with 0 by lra.
  now rewrite exp_0.
Qed.

Lemma _norm_pdf_le_0 (z : R) : stats._norm_pdf z <= stats._norm_pdf 0.
Proof.
  rewrite _norm_pdf_0. unfold stats._norm_pdf.
  apply Rmult_le_compat_r.
  - left. apply Rinv_0_lt_compat, sqrt_2PI_pos.
  - rewrite <- exp_0.
    destruct (Req_dec z 0) as [-> | Hz].
    + right. f_equal. lra.
    + left. apply exp_increasing. nra.
Qed.

Lemma _norm_pdf_pos (z : R) : 0 < stats._norm_pdf z.
Proof.
  unfold stats._norm_pdf. apply Rdiv_lt_0_compat.
  - apply exp_pos.
  - apply sqrt_2PI_pos.
Qed.

Lemma norm_pdf_valid (x0 loc scale : R) :
  0 < scale ->
  stats.norm_pdf x0 loc scale
  = Some (stats._norm_pdf ((x0 - loc) / scale) / scale).
Proof.
  intros Hs. unfold stats.norm_pdf. now destruct (Rlt_dec 0 scale).
Qed.

Lemma norm_pdf_nan (x0 loc scale : R) :
  scale <= 0 -> stats.norm_pdf x0 loc scale = None.
Proof.
  intros Hs. unfold stats.norm_pdf. destruct (Rlt_dec 0 scale); [lra | easy].
Qed.

(** The library's way of computing the density agrees with the closed
    formula [exp(-(x-mean)^2 / (2*spread^2)) / (spread*sqrt(2*pi))]. *)
Lemma norm_pdf_closed_form (x0 loc scale : R) :
  0 < scale ->
  stats.norm_pdf x0 loc scale
  = Some (exp (- (x0 - loc) ^ 2 / (2 * scale ^ 2)) / (scale * sqrt (2 * PI))).
Proof.
  intros Hs. rewrite norm_pdf_valid by assumption.
  unfold stats._norm_pdf. pose proof sqrt_2PI_pos as Hq.
  f_equal.
  replace (- ((x0 - loc) / scale * ((x0 - loc) / scale)) / 2)
    with (- (x0 - loc) ^ 2 / (2 * scale ^ 2)) by (field; lra).
  field. split; lra.
Qed.

Lemma norm_pdf_at_mean (mean std : R) :
  0 < std ->
  stats.norm_pdf mean mean std = Some (1 / (std * sqrt (2 * PI))).
Proof.
  intros Hs. rewrite norm_pdf_valid by assumption.
  pose proof sqrt_2PI_pos as Hq.
  replace ((mean - mean) / std) with 0 by (field; lra).
  rewrite _norm_pdf_0. f_equal. field. split; lra.
Qed.

End Density.

(** ** The rescaled peak *)

Lemma pdf_scaled_at_valid (x0 mean std : R) :
  0 < std ->
  pdf_scaled_at x0 mean std
  = Some (stats._norm_pdf ((x0 - mean) / std) * 2.5).
Proof.
  intros Hs. unfold pdf_scaled_at. rewrite norm_pdf_valid by assumption.
  simpl. f_equal. field. lra.
Qed.

Lemma pdf_scaled_at_nan (x0 mean std : R) :
  std <= 0 -> pdf_scaled_at x0 mean std = None.
Proof.
  intros Hs. unfold pdf_scaled_at. now rewrite norm_pdf_nan.
Qed.

(** The rescaling formula at the mean: for a positive spread its value is
    [2.5 / sqrt(2*pi)], whatever the spread; multiplying the spread by a
    positive factor [c] divides the unscaled density at the mean by [c] and
    leaves the rescaled value unchanged. *)
Lemma formula_at_mean (mean std c : R) :
  0 < std -> 0 < c ->
  pdf_scaled_at mean mean std = Some (2.5 / sqrt (2 * PI))
  /\ stats.norm_pdf mean mean (c * std)
     = option_map (fun p => p / c) (stats.norm_pdf mean mean std)
  /\ pdf_scaled_at mean mean (c * std) = pdf_scaled_at mean mean std.
Proof.
  intros Hs Hc.
  assert (Hcs : 0 < c * std) by nra.
  pose proof sqrt_2PI_pos as Hq.
  assert (Hpeak : forall s, 0 < s ->
            pdf_scaled_at mean mean s = Some (2.5 / sqrt (2 * PI))).
  { intros s Hpos. rewrite pdf_scaled_at_valid by assumption.
    replace ((mean - mean) / s) with 0 by (field; lra).
    rewrite _norm_pdf_0. f_equal. field. lra. }
  split; [now apply Hpeak |]. split.
  - rewrite !norm_pdf_at_mean by assumption. simpl. f_equal.
    field. repeat split; lra.
  - now rewrite !Hpeak.
Qed.

(** ** The peak is at the mean *)

Lemma x_first : In 1200 x.
Proof.
  unfold x, np.linspace. apply in_map_iff. exists 0%nat. split.
  - change (INR 0) with 0. now rewrite Rmult_0_l, Rplus_0_r.
  - apply in_seq. lia.
Qed.

(** C8: for a positive spread the density at the mean is
    [1 / (spread * sqrt(2*pi))], and at no point of the sampled domain is
    the density larger. *)
Theorem density_peak_at_mean (t : team) (x0 : R) :
  0 < std_dev t -> In x0 x ->
  exists p q,
    stats.norm_pdf (mean_elo t) (mean_elo t) (std_dev t) = Some p
    /\ p = 1 / (std_dev t * sqrt (2 * PI))
    /\ stats.norm_pdf x0 (mean_elo t) (std_dev t) = Some q
    /\ q <= p.
Proof.
  intros Hs _.
  exists (1 / (std_dev t * sqrt (2 * PI))).
  exists (stats._norm_pdf ((x0 - mean_elo t) / std_dev t) / std_dev t).
  pose proof sqrt_2PI_pos as Hq.
  repeat split.
  - now apply norm_pdf_at_mean.
  - now apply norm_pdf_valid.
  - replace (1 / (std_dev t * sqrt (2 * PI)))
      with (stats._norm_pdf 0 / std_dev t)
      by (rewrite _norm_pdf_0; field; split; lra).
    apply Rmult_le_compat_r.
    + left. now apply Rinv_0_lt_compat.
    + apply _norm_pdf_le_0.
Qed.

Lemma density_peak_at_mean_witness :
  exists p q,
    stats.norm_pdf 1900 1900 80 = Some p
    /\ p = 1 / (80 * sqrt (2 * PI))
    /\ stats.norm_pdf 1200 1900 80 = Some q
    /\ q <= p.
Proof.
  assert (H80 : 0 < 80) by lra.
  exact (density_peak_at_mean
           {| rank := 1; team_name := "Duke Blue Devils";
              mean_elo := 1900; std_dev := 80 |} 1200 H80 x_first).
Defined.

(** ** What the loop draws *)

Section Loop.

Lemma enumerate_length {A : Type} (i : nat) (l : list A) :
  length (enumerate i l) = length l.
Proof.
  revert i. induction l as [| a l IH]; intros i; simpl; [easy |].
  now rewrite IH.
Qed.

Lemma enumerate_seq {A : Type} (i : nat) (l : list A) :
  map fst (enumerate i l) = seq i (length l).
Proof.
  revert i. induction l as [| a l IH]; intros i; simpl; [easy |].
  now rewrite IH.
Qed.

Lemma enumerate_nth_error {A : Type} (i j : nat) (l : list A) :
  nth_error (enumerate i l) j
  = option_map (fun a => ((i + j)%nat, a)) (nth_error l j).
Proof.
  revert i j. induction l as [| a l IH]; intros i [| j]; simpl; try easy.
  - now rewrite Nat.add_0_r.
  - rewrite IH. now rewrite Nat.add_succ_r.
Qed.

Lemma plot_teams_lines (i : nat) (teams : list team) (ax : Axes) :
  lines (plot_teams i teams ax)
  = lines ax ++ map (fun '(j, t) => line_of j t) (enumerate i teams).
Proof.
  revert i ax. induction teams as [| t rest IH]; intros i ax; simpl.
  - now rewrite app_nil_r.
  - rewrite IH. unfold plot_team.
    destruct (i <? 3)%nat; simpl; now rewrite <- app_assoc.
Qed.

Lemma plot_teams_collections (i : nat) (teams : list team) (ax : Axes) :
  collections (plot_teams i teams ax)
  = collections ax
    ++ map (fun '(j, t) => fill_of j t)
           (filter (fun '(j, _) => (j <? 3)%nat) (enumerate i teams)).
Proof.
  revert i ax. induction teams as [| t rest IH]; intros i ax; simpl.
  - now rewrite app_nil_r.
  - rewrite IH. unfold plot_team.
    destruct (i <? 3)%nat; simpl; [now rewrite <- app_assoc | easy].
Qed.

Lemma plot_teams_ylim (i : nat) (teams : list team) (ax : Axes) :
  ylim (plot_teams i teams ax) = ylim ax.
Proof.
  revert i ax. induction teams as [| t rest IH]; intros i ax; simpl.
  - easy.
  - rewrite IH. unfold plot_team. now destruct (i <? 3)%nat.
Qed.

Lemma figure_lines (teams : list team) :
  lines (figure_of teams)
  = map (fun '(j, t) => line_of j t) (enumerate 0 teams).
Proof. unfold figure_of. simpl. now rewrite plot_teams_lines. Qed.

Lemma figure_collections (teams : list team) :
  collections (figure_of teams)
  = map (fun '(j, t) => fill_of j t)
        (filter (fun '(j, _) => (j <? 3)%nat) (enumerate 0 teams)).
Proof. unfold figure_of. simpl. now rewrite plot_teams_collections. Qed.

Lemma figure_lines_length (teams : list team) :
  length (lines (figure_of teams)) = length teams.
Proof. now rewrite figure_lines, length_map, enumerate_length. Qed.

Lemma figure_lines_nth_error (teams : list team) (i : nat) :
  nth_error (lines (figure_of teams)) i
  = option_map (line_of i) (nth_error teams i).
Proof.
  rewrite figure_lines, nth_error_map, enumerate_nth_error.
  now destruct (nth_error teams i).
Qed.

(** A field of the curves that is computed from the index alone. *)
Lemma figure_lines_by_index {B : Type} (f : Line2D -> B) (g : nat -> B)
      (teams : list team) :
  (forall j t, f (line_of j t) = g j) ->
  map f (lines (figure_of teams)) = map g (seq 0 (length teams)).
Proof.
  intros Hfg. rewrite figure_lines, <- enumerate_seq, !map_map.
  apply map_ext. intros [j t]. apply Hfg.
Qed.

Lemma count_below {A : Type} (k i : nat) (l : list A) :
  length (filter (fun '(j, _) => (j <? k)%nat) (enumerate i l))
  = Nat.min (length l) (k - i).
Proof.
  revert i. induction l as [| a l IH]; intros i;
    cbn [enumerate filter length]; [easy |].
  destruct (i <? k)%nat eqn:Hik.
  - apply Nat.ltb_lt in Hik. cbn [length]. rewrite IH. lia.
  - apply Nat.ltb_ge in Hik. rewrite IH. lia.
Qed.

Lemma filter_below_firstn {A : Type} (k i : nat) (l : list A) :
  filter (fun '(j, _) => (j <? k)%nat) (enumerate i l)
  = firstn (k - i) (enumerate i l).
Proof.
  revert i. induction l as [| a l IH]; intros i; simpl.
  - now rewrite firstn_nil.
  - destruct (i <? k)%nat eqn:Hik.
    + apply Nat.ltb_lt in Hik. rewrite IH.
      replace (k - i)%nat with (S (k - S i)) by lia. easy.
    + apply Nat.ltb_ge in Hik. rewrite IH.
      replace (k - i)%nat with 0%nat by lia.
      replace (k - S i)%nat with 0%nat by lia. easy.
Qed.

Lemma is_leading_line_of (j : nat) (t : team) :
  is_leading (line_of j t) = (j <? 6)%nat.
Proof.
  unfold is_leading, line_of, linewidth_of, alpha_of. simpl.
  now destruct (j <? 6)%nat.
Qed.

Lemma is_plain_line_of (j : nat) (t : team) :
  is_plain (line_of j t) = negb (j <? 6)%nat.
Proof.
  unfold is_plain, line_of, linewidth_of, alpha_of. simpl.
  now destruct (j <? 6)%nat.
Qed.

End Loop.

(** The area that shades a curve. *)
Lemma fill_of_line (j : nat) (t : team) :
  fill_of j t
  = {| p_x := l_xdata (line_of j t); p_y1 := l_ydata (line_of j t);
       p_alpha := 0.1%Q; p_color := l_color (line_of j t) |}.
Proof. reflexivity. Qed.

(** C5: of the N curves exactly min(N, 3) are shaded and exactly min(N, 6)
    have the leading treatment (line width 2.5 and opacity 0.9, against 1.8
    and 0.7 for the others); they are the first curves in sequence order:
    the curve at position [i] is a leading one exactly when [i < 6], and the
    shaded areas are those under the first three curves. *)
Theorem shading_and_leading_counts (teams : list team) :
  let ax := figure_of teams in
  let N := length teams in
  length (lines ax) = N
  /\ length (collections ax) = Nat.min N 3
  /\ length (filter is_leading (lines ax)) = Nat.min N 6
  /\ length (filter is_plain (lines ax)) = (N - 6)%nat
  /\ map (fun l => (l_linewidth l, l_alpha l)) (lines ax)
     = map (fun i => if (i <? 6)%nat then (2.5%Q, 0.9%Q) else (1.8%Q, 0.7%Q))
           (seq 0 N)
  /\ map is_leading (lines ax) = map (fun i => (i <? 6)%nat) (seq 0 N)
  /\ collections ax
     = map (fun l => {| p_x := l_xdata l; p_y1 := l_ydata l;
                        p_alpha := 0.1%Q; p_color := l_color l |})
           (firstn 3 (lines ax)).
Proof.
  cbv zeta. repeat split.
  - apply figure_lines_length.
  - rewrite figure_collections, length_map, count_below. lia.
  - rewrite figure_lines.
    assert (Hsame : forall l : list (nat * team),
      length (filter is_leading (map (fun '(j, t) => line_of j t) l))
      = length (filter (fun '(j, _) => (j <? 6)%nat) l)).
    { induction l as [| [j t] l IH]; simpl; [easy |].
      rewrite is_leading_line_of.
      destruct (j <? 6)%nat; simpl; now rewrite IH. }
    rewrite Hsame, count_below. lia.
  - rewrite figure_lines.
    assert (Hsplit : forall l : list (nat * team),
      (length (filter is_plain (map (fun '(j, t) => line_of j t) l))
       + length (filter (fun '(j, _) => (j <? 6)%nat) l))%nat = length l).
    { induction l as [| [j t] l IH]; simpl; [easy |].
      rewrite is_plain_line_of.
      destruct (j <? 6)%nat; simpl; lia. }
    specialize (Hsplit (enumerate 0 teams)).
    rewrite count_below, enumerate_length in Hsplit. lia.
  - apply figure_lines_by_index. intros j t.
    unfold line_of, linewidth_of, alpha_of. simpl.
    now destruct (j <? 6)%nat.
  - apply figure_lines_by_index. intros j t. apply is_leading_line_of.
  - rewrite figure_collections, figure_lines, filter_below_firstn.
    rewrite Nat.sub_0_r, firstn_map, map_map.
    apply map_ext. intros [j t]. apply fill_of_line.
Qed.

(** ** Colours and dash patterns *)

Lemma color_of_period (i : nat) : color_of (i + 20) = color_of i.
Proof.
  unfold color_of. f_equal. change (length colors) with 20%nat.
  replace (i + 20)%nat with (i + 1 * 20)%nat by lia.
  now rewrite Nat.Div0.mod_add.
Qed.

Lemma linestyle_of_period (i : nat) : linestyle_of (i + 40) = linestyle_of i.
Proof.
  unfold linestyle_of. f_equal. change (length line_styles) with 4%nat.
  replace (i + 40)%nat with (i + 4 * 10)%nat by lia.
  rewrite Nat.div_add by lia.
  replace (i / 10 + 4)%nat with (i / 10 + 1 * 4)%nat by lia.
  now rewrite Nat.Div0.mod_add.
Qed.

Lemma linestyle_of_block (i : nat) :
  linestyle_of i = linestyle_of (10 * (i / 10)).
Proof.
  unfold linestyle_of. do 2 f_equal.
  rewrite Nat.mul_comm, Nat.div_mul by lia. reflexivity.
Qed.

(** C7: the colour of the curve at position [i] is [palette[i mod 20]] and
    its dash pattern is [styles[(i div 10) mod 4]]; the colour repeats with
    period 20 and the dash pattern with period 40, no shorter shift repeats
    either of them, and the ten positions of a block share the dash pattern
    of the first position of the block. *)
Theorem color_and_linestyle_periodic (teams : list team) (i : nat) :
  map l_color (lines (figure_of teams))
  = map (fun j => nth (j mod 20) colors EmptyString) (seq 0 (length teams))
  /\ map l_linestyle (lines (figure_of teams))
     = map (fun j => nth ((j / 10) mod 4) line_styles EmptyString)
           (seq 0 (length teams))
  /\ length colors = 20%nat
  /\ color_of (i + 20) = color_of i
  /\ linestyle_of (i + 40) = linestyle_of i
  /\ linestyle_of i = linestyle_of (10 * (i / 10))
  /\ forallb (fun p => negb (String.eqb (color_of (0 + p)) (color_of 0)))
             (seq 1 19) = true
  /\ forallb (fun p =>
                existsb (fun j => negb (String.eqb (linestyle_of (j + p))
                                                   (linestyle_of j)))
                        (seq 0 10))
             (seq 1 39) = true.
Proof.
  repeat split.
  - now apply figure_lines_by_index.
  - now apply figure_lines_by_index.
  - apply color_of_period.
  - apply linestyle_of_period.
  - apply linestyle_of_block.
Qed.

(** ** The rank field *)

Lemma short_name_same (t t' : team) :
  team_name t = team_name t' -> short_name t = short_name t'.
Proof. unfold short_name. now intros ->. Qed.

Lemma unlabelled_line_of (j : nat) (t t' : team) :
  same_but_rank t t' -> unlabelled (line_of j t) = unlabelled (line_of j t').
Proof.
  intros (_ & Hmean & Hstd). unfold unlabelled, line_of. simpl.
  now rewrite Hmean, Hstd.
Qed.

Lemma fill_of_same (j : nat) (t t' : team) :
  same_but_rank t t' -> fill_of j t = fill_of j t'.
Proof.
  intros (_ & Hmean & Hstd). unfold fill_of. now rewrite Hmean, Hstd.
Qed.

Lemma plot_teams_same_but_rank (teams teams' : list team) :
  Forall2 same_but_rank teams teams' ->
  forall i ax ax',
    map unlabelled (lines ax) = map unlabelled (lines ax') ->
    collections ax = collections ax' ->
    map unlabelled (lines (plot_teams i teams ax))
    = map unlabelled (lines (plot_teams i teams' ax'))
    /\ collections (plot_teams i teams ax)
       = collections (plot_teams i teams' ax').
Proof.
  induction 1 as [| t t' rest rest' Ht _ IH]; intros i ax ax' Hl Hc.
  - now split.
  - cbn [plot_teams]. apply IH.
    + unfold plot_team.
      destruct (i <? 3)%nat; cbn [lines add_line add_collection];
        rewrite !map_app, Hl; cbn [map];
        now rewrite (unlabelled_line_of i t t' Ht).
    + unfold plot_team.
      destruct (i <? 3)%nat; cbn [collections add_line add_collection].
      * now rewrite Hc, (fill_of_same i t t' Ht).
      * exact Hc.
Qed.

Lemma figure_labels (teams : list team) :
  map l_label (lines (figure_of teams)) = map label_of teams.
Proof.
  rewrite figure_lines, map_map. generalize 0%nat.
  induction teams as [| t rest IH]; intros i; simpl; [easy |].
  now rewrite IH.
Qed.

(** C10: the colour, the dash pattern, the line width, the opacity and the
    shading are computed from the zero-based position alone, and the label
    is the only thing that reads [rank]: two inputs that differ at most in
    the rank values give the same curves up to the label text and the same
    shaded areas, while each label starts with the [rank] of its record. *)
Theorem styling_ignores_rank (teams teams' : list team) :
  Forall2 same_but_rank teams teams' ->
  map (fun l => (l_color l, l_linestyle l, l_linewidth l, l_alpha l))
      (lines (figure_of teams))
  = map (fun i => (color_of i, linestyle_of i, linewidth_of i, alpha_of i))
        (seq 0 (length teams))
  /\ length (collections (figure_of teams)) = Nat.min (length teams) 3
  /\ map unlabelled (lines (figure_of teams))
     = map unlabelled (lines (figure_of teams'))
  /\ collections (figure_of teams) = collections (figure_of teams')
  /\ map l_label (lines (figure_of teams))
     = map (fun t => (str.of_int (rank t) ++ ". " ++ short_name t)%string)
           teams
  /\ map short_name teams = map short_name teams'.
Proof.
  intros Hsame.
  destruct (plot_teams_same_but_rank teams teams' Hsame 0 subplots subplots
              eq_refl eq_refl) as [Hl Hc].
  repeat split.
  - now apply figure_lines_by_index.
  - rewrite figure_collections, length_map, count_below. lia.
  - exact Hl.
  - exact Hc.
  - apply figure_labels.
  - clear Hl Hc.
    induction Hsame as [| t t' rest rest' Ht _ IH]; simpl; [easy |].
    f_equal; [| exact IH].
    apply short_name_same. now destruct Ht.
Qed.

Lemma styling_ignores_rank_witness :
  let t1 := {| rank := 1; team_name := "Duke Blue Devils";
               mean_elo := 1900; std_dev := 80 |} in
  let t2 := {| rank := 7; team_name := "Duke Blue Devils";
               mean_elo := 1900; std_dev := 80 |} in
  Forall2 same_but_rank [t1] [t2]
  /\ map unlabelled (lines (figure_of [t1]))
     = map unlabelled (lines (figure_of [t2]))
  /\ collections (figure_of [t1]) = collections (figure_of [t2]).
Proof.
  intros t1 t2.
  assert (Hsame : Forall2 same_but_rank [t1] [t2]).
  { constructor; [| constructor].
    unfold same_but_rank. split; [reflexivity |]. split; reflexivity. }
  destruct (styling_ignores_rank [t1] [t2] Hsame)
    as (_ & _ & Hl & Hc & _).
  split; [exact Hsame |]. split; [exact Hl | exact Hc].
Defined.

(** ** Runs of the script *)

Section Runs.

Lemma step_deterministic (c c1 c2 : config) :
  step c c1 -> step c c2 -> c1 = c2.
Proof.
  intros H1 H2. inversion H1; subst; inversion H2; subst; reflexivity.
Qed.

Lemma halted_stuck (o : outcome) (ax : Axes) (c : config) :
  ~ step (Halted o, ax) c.
Proof. intros H. inversion H. Qed.

Lemma steps_trans (c1 c2 c3 : config) :
  steps c1 c2 -> steps c2 c3 -> steps c1 c3.
Proof.
  induction 1 as [| a b c Hab _ IH]; intros H23; [easy |].
  eapply steps_cons; [exact Hab | now apply IH].
Qed.

(** Two runs from the same configuration that both halt end in the same
    configuration. *)
Lemma steps_halted_deterministic (c : config) (o1 o2 : outcome)
      (ax1 ax2 : Axes) :
  steps c (Halted o1, ax1) -> steps c (Halted o2, ax2) ->
  (Halted o1, ax1) = (Halted o2, ax2).
Proof.
  intros H1. remember (Halted o1, ax1) as h1 eqn:Eh1.
  induction H1 as [c | c c' h Hstep _ IH]; intros H2.
  - subst c. inversion H2 as [| a b d Hstep' _]; subst; [easy |].
    now apply halted_stuck in Hstep'.
  - inversion H2 as [| a b d Hstep' Hrest]; subst.
    + now apply halted_stuck in Hstep.
    + rewrite (step_deterministic _ _ _ Hstep Hstep') in IH.
      now apply IH.
Qed.

Lemma loop_steps (teams : list team) (i : nat) (ax : Axes) :
  steps (AtLoop i teams, ax) (AtStyling, plot_teams i teams ax).
Proof.
  revert i ax. induction teams as [| t rest IH]; intros i ax; simpl.
  - eapply steps_cons; [constructor | constructor].
  - eapply steps_cons; [constructor | apply IH].
Qed.

(** The script always runs to its end, with the outcome [main]. *)
Lemma main_runs (teams : list team) : runs teams (main teams).
Proof.
  exists (figure_of teams). unfold main, figure_of.
  eapply steps_trans; [apply loop_steps |].
  do 4 (eapply steps_cons; [constructor |]). constructor.
Qed.

End Runs.

(** ** Inputs the script does not check *)

Lemma x_length : length x = 500%nat.
Proof. unfold x, np.linspace. now rewrite length_map, length_seq. Qed.

Lemma pdf_scaled_length (mean std : R) :
  length (pdf_scaled mean std) = 500%nat.
Proof. unfold pdf_scaled. now rewrite length_map, x_length. Qed.

Lemma pdf_scaled_all_nan (mean std : R) :
  std <= 0 -> all_nan (pdf_scaled mean std).
Proof.
  intros Hs. unfold all_nan, pdf_scaled. apply Forall_map, Forall_forall.
  intros x0 _. now apply pdf_scaled_at_nan.
Qed.

Lemma finite_all_nan (ys : list (option R)) :
  all_nan ys -> autoscale.finite ys = [].
Proof.
  induction 1 as [| y ys Hy _ IH]; simpl; [easy |].
  now rewrite Hy.
Qed.

Lemma figure_of_nil_ylim : ylim (figure_of []) = Some (0, 1.05).
Proof.
  unfold figure_of, set_limits, get_ylim. cbn.
  do 2 f_equal. lra.
Qed.

(** C2, as stated, fails: on the empty input the script raises nothing and
    reaches the save step. *)
Lemma empty_input_not_rejected :
  ~ fails_with EmptyInputError []
  /\ exists img out, main [] = Completed [img] out.
Proof.
  split.
  - unfold fails_with, main. discriminate.
  - unfold main. eauto.
Qed.

(** C2, amended: on the empty input the script draws no curve and shades no
    area, leaves the vertical axis at the default view scaled by 1.05, that
    is (0, 1.05), and saves the figure; no exception is raised. *)
Theorem empty_input_saves_empty_chart :
  main [] = Completed [savefig (figure_of [])]
                      ["Saved elo_distributions.png"%string]
  /\ runs [] (main [])
  /\ lines (figure_of []) = []
  /\ collections (figure_of []) = []
  /\ xlim (figure_of []) = Some (1200, 2600)
  /\ ylim (figure_of []) = Some (0, 1.05).
Proof.
  split; [reflexivity |]. split; [apply main_runs |].
  split; [reflexivity |]. split; [reflexivity |].
  split; [reflexivity | apply figure_of_nil_ylim].
Qed.

(** C3, as stated, fails: a record with spread 0 raises nothing, the run
    reaches the save step. *)
Lemma zero_spread_not_rejected :
  let t0 := {| rank := 1; team_name := "Duke Blue Devils";
               mean_elo := 1900; std_dev := 0 |} in
  std_dev t0 <= 0
  /\ ~ fails_with InvalidParameterError [t0]
  /\ exists img out, main [t0] = Completed [img] out.
Proof.
  intros t0. split; [simpl; lra |]. split.
  - unfold fails_with, main. discriminate.
  - unfold main. eauto.
Qed.

(** C3, amended: a record whose spread is zero or negative is not rejected.
    Its density is NaN at each of the 500 samples, so its curve has no
    finite point, and the run still completes and saves the figure. *)
Theorem nonpositive_spread_draws_nan (teams : list team) (i : nat) (t : team) :
  nth_error teams i = Some t ->
  std_dev t <= 0 ->
  main teams = Completed [savefig (figure_of teams)]
                         ["Saved elo_distributions.png"%string]
  /\ exists l,
       nth_error (lines (figure_of teams)) i = Some l
       /\ length (l_ydata l) = 500%nat
       /\ all_nan (l_ydata l)
       /\ autoscale.finite (l_ydata l) = [].
Proof.
  intros Hi Hs. split; [reflexivity |].
  exists (line_of i t). rewrite figure_lines_nth_error, Hi.
  split; [reflexivity |].
  pose proof (pdf_scaled_all_nan (mean_elo t) _ Hs) as Hnan.
  split; [apply pdf_scaled_length |].
  split; [exact Hnan | now apply finite_all_nan].
Qed.

Lemma nonpositive_spread_draws_nan_witness :
  let t0 := {| rank := 1; team_name := "Duke Blue Devils";
               mean_elo := 1900; std_dev := 0 |} in
  exists l,
    nth_error (lines (figure_of [t0])) 0 = Some l /\ all_nan (l_ydata l).
Proof.
  intros t0.
  assert (Hs : std_dev t0 <= 0) by (simpl; lra).
  destruct (nonpositive_spread_draws_nan [t0] 0 t0 eq_refl Hs)
    as (_ & l & Hl & _ & Hnan & _).
  exists l. split; [exact Hl | exact Hnan].
Defined.

(** ** Extrema of a list of reals *)

Section Extrema.

Lemma fold_max_ge_init (vs : list R) (v : R) : v <= fold_left Rmax vs v.
Proof.
  revert v. induction vs as [| w vs IH]; intros v; simpl; [lra |].
  apply Rle_trans with (Rmax v w); [apply Rmax_l | apply IH].
Qed.

Lemma fold_max_upper (vs : list R) (v y : R) :
  In y (v :: vs) -> y <= fold_left Rmax vs v.
Proof.
  revert v. induction vs as [| w vs IH]; intros v Hy; simpl.
  - destruct Hy as [-> | []]. lra.
  - destruct Hy as [-> | [-> | Hy]].
    + apply Rle_trans with (Rmax y w); [apply Rmax_l | apply fold_max_ge_init].
    + apply Rle_trans with (Rmax v y); [apply Rmax_r | apply fold_max_ge_init].
    + apply IH. now right.
Qed.

Lemma fold_max_in (vs : list R) (v : R) : In (fold_left Rmax vs v) (v :: vs).
Proof.
  revert v. induction vs as [| w vs IH]; intros v; simpl; [now left |].
  destruct (IH (Rmax v w)) as [Heq | Hin].
  - rewrite <- Heq.
    unfold Rmax. destruct (Rle_dec v w); [now right; left | now left].
  - now right; right.
Qed.

Lemma fold_min_le_init (vs : list R) (v : R) : fold_left Rmin vs v <= v.
Proof.
  revert v. induction vs as [| w vs IH]; intros v; simpl; [lra |].
  apply Rle_trans with (Rmin v w); [apply IH | apply Rmin_l].
Qed.

Lemma fold_min_lower (vs : list R) (v y : R) :
  In y (v :: vs) -> fold_left Rmin vs v <= y.
Proof.
  revert v. induction vs as [| w vs IH]; intros v Hy; simpl.
  - destruct Hy as [-> | []]. lra.
  - destruct Hy as [-> | [-> | Hy]].
    + apply Rle_trans with (Rmin y w); [apply fold_min_le_init | apply Rmin_l].
    + apply Rle_trans with (Rmin v y); [apply fold_min_le_init | apply Rmin_r].
    + apply IH. now right.
Qed.

Lemma fold_min_in (vs : list R) (v : R) : In (fold_left Rmin vs v) (v :: vs).
Proof.
  revert v. induction vs as [| w vs IH]; intros v; simpl; [now left |].
  destruct (IH (Rmin v w)) as [Heq | Hin].
  - rewrite <- Heq.
    unfold Rmin. destruct (Rle_dec v w); [now left | now right; left].
  - now right; right.
Qed.

(** The fold computes the greatest element. *)
Lemma fold_max_is (vs : list R) (v m : R) :
  In m (v :: vs) -> (forall y, In y (v :: vs) -> y <= m) ->
  fold_left Rmax vs v = m.
Proof.
  intros Hin Hub. apply Rle_antisym.
  - apply Hub, fold_max_in.
  - now apply fold_max_upper.
Qed.

(** The fold computes the least element. *)
Lemma fold_min_is (vs : list R) (v m : R) :
  In m (v :: vs) -> (forall y, In y (v :: vs) -> m <= y) ->
  fold_left Rmin vs v = m.
Proof.
  intros Hin Hlb. apply Rle_antisym.
  - now apply fold_min_lower.
  - apply Hlb, fold_min_in.
Qed.

End Extrema.

(** ** The vertical limits *)

Lemma In_finite (y : R) (ys : list (option R)) :
  In y (autoscale.finite ys) <-> In (Some y) ys.
Proof.
  unfold autoscale.finite. rewrite in_flat_map. split.
  - intros ([v |] & Hin & Hy); simpl in Hy; [| easy].
    destruct Hy as [-> | []]. exact Hin.
  - intros Hin. exists (Some y). split; [exact Hin | now left].
Qed.

Lemma In_poly_extent (y : R) (p : PolyCollection) :
  In y (autoscale.poly_extent p)
  <-> In (Some y) (p_y1 p) \/ (y = 0 /\ exists v, In (Some v) (p_y1 p)).
Proof.
  unfold autoscale.poly_extent. rewrite in_flat_map. split.
  - intros ([v |] & Hin & Hy); simpl in Hy; [| easy].
    destruct Hy as [-> | [<- | []]]; [now left |].
    right. split; [reflexivity | now exists v].
  - intros [Hin | (-> & v & Hin)].
    + exists (Some y). split; [exact Hin | now left].
    + exists (Some v). split; [exact Hin | now right; left].
Qed.

(** The autoscaled view when the least and the greatest data value are
    known. *)
Lemma view_y_extrema (ax : Axes) (lo hi : R) :
  In lo (autoscale.data_y ax) ->
  (forall y, In y (autoscale.data_y ax) -> lo <= y) ->
  In hi (autoscale.data_y ax) ->
  (forall y, In y (autoscale.data_y ax) -> y <= hi) ->
  autoscale.view_y ax
  = let '(y0, y1) := autoscale.nonsingular lo hi 0.05 1e-15 in
    (y0 - (y1 - y0) * autoscale.ymargin, y1 + (y1 - y0) * autoscale.ymargin).
Proof.
  intros Hlo Hlb Hhi Hub. unfold autoscale.view_y.
  destruct (autoscale.data_y ax) as [| v vs]; [easy |].
  rewrite (fold_min_is vs v lo Hlo Hlb), (fold_max_is vs v hi Hhi Hub).
  reflexivity.
Qed.

(** A positive extent above the degeneracy threshold is kept as it is. *)
Lemma nonsingular_regular (hi : R) :
  1e6 / 1e-15 * autoscale.float_tiny <= hi ->
  autoscale.nonsingular 0 hi 0.05 1e-15 = (0, hi).
Proof.
  intros Hthr.
  assert (Hpos : 0 < hi) by (unfold autoscale.float_tiny in Hthr; lra).
  unfold autoscale.nonsingular.
  rewrite Rabs_R0, (Rabs_pos_eq hi) by lra.
  rewrite Rmax_right by lra.
  destruct (Rlt_dec hi (1e6 / 1e-15 * autoscale.float_tiny)); [lra |].
  destruct (Rle_dec (hi - 0) (hi * 1e-15)); [lra | reflexivity].
Qed.

Section Limits.

Variable teams : list team.
Hypothesis teams_valid : Forall (fun t => 0 < std_dev t) teams.

Lemma In_enumerate {A : Type} (i j : nat) (a : A) (l : list A) :
  In (j, a) (enumerate i l) -> In a l.
Proof.
  revert i. induction l as [| b l IH]; intros i; simpl; [easy |].
  intros [Heq | Hin]; [left; congruence | right; eapply IH; eauto].
Qed.

Lemma In_pdf_scaled (y mean std : R) :
  0 < std ->
  In (Some y) (pdf_scaled mean std) ->
  exists x0, In x0 x /\ y = stats._norm_pdf ((x0 - mean) / std) * 2.5.
Proof.
  intros Hs Hin. unfold pdf_scaled in Hin. apply in_map_iff in Hin.
  destruct Hin as (x0 & Heq & Hx0). exists x0. split; [exact Hx0 |].
  rewrite pdf_scaled_at_valid in Heq by assumption. congruence.
Qed.

Lemma pdf_scaled_In (x0 mean std : R) :
  0 < std -> In x0 x ->
  In (Some (stats._norm_pdf ((x0 - mean) / std) * 2.5))
     (pdf_scaled mean std).
Proof.
  intros Hs Hx0. unfold pdf_scaled. apply in_map_iff.
  exists x0. split; [now apply pdf_scaled_at_valid | exact Hx0].
Qed.

Lemma figure_line_inv (l : Line2D) :
  In l (lines (figure_of teams)) -> exists j t, In t teams /\ l = line_of j t.
Proof.
  rewrite figure_lines. intros Hin.
  apply in_map_iff in Hin. destruct Hin as ([j t] & <- & Hjt).
  exists j, t. split; [eapply In_enumerate; eauto | reflexivity].
Qed.

Lemma figure_collection_inv (p : PolyCollection) :
  In p (collections (figure_of teams)) ->
  exists j t, In t teams /\ p = fill_of j t /\ In (line_of j t) (lines (figure_of teams)).
Proof.
  rewrite figure_collections, figure_lines. intros Hin.
  apply in_map_iff in Hin. destruct Hin as ([j t] & <- & Hjt).
  apply filter_In in Hjt. destruct Hjt as [Hjt _].
  exists j, t. split; [eapply In_enumerate; eauto |].
  split; [reflexivity |].
  apply in_map_iff. now exists (j, t).
Qed.

(** Every finite value of a curve is positive. *)
Lemma line_values_pos (l : Line2D) (y : R) :
  In l (lines (figure_of teams)) -> In (Some y) (l_ydata l) -> 0 < y.
Proof.
  intros Hl Hy. destruct (figure_line_inv l Hl) as (j & t & Ht & ->).
  rewrite Forall_forall in teams_valid. specialize (teams_valid t Ht).
  cbn [l_ydata line_of] in Hy.
  destruct (In_pdf_scaled _ _ _ teams_valid Hy) as (x0 & _ & ->).
  pose proof (_norm_pdf_pos ((x0 - mean_elo t) / std_dev t)). lra.
Qed.

Lemma In_line_data (y : R) :
  In y (flat_map (fun l => autoscale.finite (l_ydata l)) (lines (figure_of teams)))
  <-> exists l, In l (lines (figure_of teams)) /\ In (Some y) (l_ydata l).
Proof.
  rewrite in_flat_map. split; intros (l & Hl & Hy); exists l;
    (split; [exact Hl | now apply In_finite]).
Qed.

Lemma In_data_y (y : R) :
  In y (autoscale.data_y (figure_of teams))
  <-> (exists l, In l (lines (figure_of teams)) /\ In (Some y) (l_ydata l))
      \/ (exists p, In p (collections (figure_of teams))
                    /\ In y (autoscale.poly_extent p)).
Proof.
  unfold autoscale.data_y. rewrite in_app_iff, In_line_data, in_flat_map.
  reflexivity.
Qed.

Lemma data_y_nonneg (y : R) : In y (autoscale.data_y (figure_of teams)) -> 0 <= y.
Proof.
  rewrite In_data_y. intros [(l & Hl & Hy) | (p & Hp & Hy)].
  - left. eapply line_values_pos; eauto.
  - apply In_poly_extent in Hy. destruct Hy as [Hy | [-> _]]; [| lra].
    destruct (figure_collection_inv p Hp) as (j & t & _ & -> & Hl).
    left. eapply line_values_pos; eauto.
Qed.

Hypothesis teams_nonempty : teams <> [].

Lemma first_curve_value :
  exists l p v, In l (lines (figure_of teams)) /\ In p (collections (figure_of teams))
                /\ In (Some v) (l_ydata l) /\ In (Some v) (p_y1 p).
Proof.
  destruct teams as [| t rest] eqn:Eteams; [easy |].
  assert (Ht : 0 < std_dev t) by now inversion teams_valid.
  exists (line_of 0 t), (fill_of 0 t).
  exists (stats._norm_pdf ((1200 - mean_elo t) / std_dev t) * 2.5).
  split; [| split; [| split]].
  - rewrite figure_lines. now left.
  - rewrite figure_collections. now left.
  - apply pdf_scaled_In; [exact Ht | apply x_first].
  - apply pdf_scaled_In; [exact Ht | apply x_first].
Qed.

Lemma data_y_has_zero : In 0 (autoscale.data_y (figure_of teams)).
Proof.
  destruct first_curve_value as (l & p & v & _ & Hp & _ & Hv).
  apply In_data_y. right. exists p. split; [exact Hp |].
  apply In_poly_extent. right. split; [reflexivity | now exists v].
Qed.

Lemma tallest_peak_spec :
  (exists l, In l (lines (figure_of teams)) /\ In (Some (tallest_peak (figure_of teams))) (l_ydata l))
  /\ forall l y, In l (lines (figure_of teams)) -> In (Some y) (l_ydata l) ->
                 y <= tallest_peak (figure_of teams).
Proof.
  unfold tallest_peak.
  destruct (flat_map (fun l => autoscale.finite (l_ydata l)) (lines (figure_of teams)))
    as [| v vs] eqn:Edata.
  - destruct first_curve_value as (l & _ & v & Hl & _ & Hv & _).
    assert (Hin : In v []) by (rewrite <- Edata; apply In_line_data; eauto).
    destruct Hin.
  - split.
    + apply In_line_data. rewrite Edata. apply fold_max_in.
    + intros l y Hl Hy. apply fold_max_upper. rewrite <- Edata.
      apply In_line_data. eauto.
Qed.

Lemma tallest_peak_pos : 0 < tallest_peak (figure_of teams).
Proof.
  destruct tallest_peak_spec as [(l & Hl & Hy) _].
  eapply line_values_pos; eauto.
Qed.

Lemma data_y_le_tallest (y : R) :
  In y (autoscale.data_y (figure_of teams)) -> y <= tallest_peak (figure_of teams).
Proof.
  destruct tallest_peak_spec as [_ Hub].
  rewrite In_data_y. intros [(l & Hl & Hy) | (p & Hp & Hy)].
  - eapply Hub; eauto.
  - apply In_poly_extent in Hy. destruct Hy as [Hy | [-> _]].
    + destruct (figure_collection_inv p Hp) as (j & t & _ & -> & Hl).
      eapply Hub; eauto.
    + left. apply tallest_peak_pos.
Qed.

Lemma data_y_has_tallest : In (tallest_peak (figure_of teams)) (autoscale.data_y (figure_of teams)).
Proof.
  destruct tallest_peak_spec as [Hin _]. apply In_data_y. now left.
Qed.

(** The autoscaled view of the drawn curves: from 5% of the tallest value
    below zero to 5% above the tallest value. *)
Lemma view_y_regular :
  1e6 / 1e-15 * autoscale.float_tiny <= tallest_peak (figure_of teams) ->
  autoscale.view_y (figure_of teams)
  = (0 - (tallest_peak (figure_of teams) - 0) * autoscale.ymargin,
     tallest_peak (figure_of teams) + (tallest_peak (figure_of teams) - 0) * autoscale.ymargin).
Proof.
  intros Hthr.
  rewrite (view_y_extrema (figure_of teams) 0 (tallest_peak (figure_of teams))).
  - now rewrite nonsingular_regular.
  - apply data_y_has_zero.
  - apply data_y_nonneg.
  - apply data_y_has_tallest.
  - apply data_y_le_tallest.
Qed.

End Limits.

Lemma tallest_peak_ge_sample (teams : list team) (i : nat) (t : team) (x0 : R) :
  Forall (fun t => 0 < std_dev t) teams ->
  nth_error teams i = Some t ->
  In x0 x ->
  stats._norm_pdf ((x0 - mean_elo t) / std_dev t) * 2.5
  <= tallest_peak (figure_of teams).
Proof.
  intros Hvalid Hi Hx0.
  assert (Hne : teams <> []) by (intros ->; now destruct i).
  destruct (tallest_peak_spec teams Hvalid Hne) as [_ Hub].
  apply (Hub (line_of i t)).
  - apply nth_error_In with i. now rewrite figure_lines_nth_error, Hi.
  - apply pdf_scaled_In; [| exact Hx0].
    rewrite Forall_forall in Hvalid. apply Hvalid.
    now apply nth_error_In with i.
Qed.

Lemma sqrt_2PI_lt_3 : sqrt (2 * PI) < 3.
Proof.
  pose proof PI_RGT_0 as Hpos. pose proof PI_4 as H4.
  replace 3 with (sqrt (3 * 3)) by (apply sqrt_square; lra).
  apply sqrt_lt_1; lra.
Qed.

(** What [ax.set_ylim(0, ax.get_ylim()[1] * 1.05)] leaves behind: 1.05 times
    the upper end of the autoscaled view of the drawn artists. *)
Lemma figure_ylim (teams : list team) :
  ylim (figure_of teams)
  = Some (0, snd (get_ylim (plot_teams 0 teams subplots)) * 1.05)
  /\ get_ylim (plot_teams 0 teams subplots)
     = autoscale.view_y (figure_of teams).
Proof.
  unfold figure_of, set_limits, get_ylim.
  cbn [ylim annotate set_ylim set_xlim decorate].
  rewrite plot_teams_ylim. cbn [ylim subplots]. split; reflexivity.
Qed.

(** C4, as stated, fails: for one team whose mean is the sample point 1200
    the tallest rendered value is the peak [2.5 / sqrt(2*pi)], and the upper
    bound of the vertical axis is not 1.05 times that value. *)
Lemma ylim_not_105_percent_of_peak :
  let t1 := {| rank := 1; team_name := "Duke Blue Devils";
               mean_elo := 1200; std_dev := 100 |} in
  tallest_peak (figure_of [t1]) = 2.5 / sqrt (2 * PI)
  /\ exists hi,
       ylim (figure_of [t1]) = Some (0, hi)
       /\ hi <> 1.05 * tallest_peak (figure_of [t1]).
Proof.
  intros t1.
  assert (Hvalid : Forall (fun t => 0 < std_dev t) [t1]).
  { constructor; [simpl; lra | constructor]. }
  assert (Hne : [t1] <> []) by discriminate.
  pose proof sqrt_2PI_pos as Hq. pose proof sqrt_2PI_lt_3 as Hq3.
  assert (Hpeak : tallest_peak (figure_of [t1]) = 2.5 / sqrt (2 * PI)).
  { apply Rle_antisym.
    - destruct (tallest_peak_spec [t1] Hvalid Hne) as [(l & Hl & Hy) _].
      destruct (figure_line_inv [t1] l Hl) as (j & t & [<- | []] & ->).
      cbn [l_ydata line_of] in Hy.
      apply In_pdf_scaled in Hy; [| simpl; lra].
      destruct Hy as (x0 & _ & ->).
      pose proof (_norm_pdf_le_0 ((x0 - mean_elo t1) / std_dev t1)) as Hle.
      rewrite _norm_pdf_0 in Hle.
      apply Rle_trans with (1 / sqrt (2 * PI) * 2.5); [lra |].
      right. field. lra.
    - pose proof (tallest_peak_ge_sample [t1] 0 t1 1200 Hvalid eq_refl x_first)
        as Hge.
      replace ((1200 - mean_elo t1) / std_dev t1) with 0 in Hge
        by (simpl; field).
      rewrite _norm_pdf_0 in Hge.
      apply Rle_trans with (1 / sqrt (2 * PI) * 2.5); [| exact Hge].
      right. field. lra. }
  split; [exact Hpeak |].
  assert (Hbig : 2.5 / 3 < tallest_peak (figure_of [t1])).
  { rewrite Hpeak. apply Rmult_lt_compat_l; [lra |].
    apply Rinv_lt_contravar; [nra | exact Hq3]. }
  destruct (figure_ylim [t1]) as [Hy Hget].
  exists (snd (get_ylim (plot_teams 0 [t1] subplots)) * 1.05).
  split; [exact Hy |].
  rewrite Hget, (view_y_regular [t1] Hvalid Hne).
  - cbn [snd]. unfold autoscale.ymargin. lra.
  - unfold autoscale.float_tiny. lra.
Qed.

(** C4, amended: the lower bound of the vertical axis is zero and the upper
    bound is 1.05 times the upper limit that the axes report once the curves
    are drawn.  That limit is the autoscaled one, which carries the 5%
    margin of the plotting library above the tallest rendered value (the
    shaded areas reach down to zero): for a non-empty input with positive
    spreads whose tallest rendered value is not vanishingly small the upper
    bound is 1.05 * 1.05 = 1.1025 times the tallest rendered value. *)
Theorem ylim_upper_is_autoscaled_limit_times_105 (teams : list team) :
  teams <> [] ->
  Forall (fun t => 0 < std_dev t) teams ->
  1e6 / 1e-15 * autoscale.float_tiny <= tallest_peak (figure_of teams) ->
  ylim (figure_of teams)
  = Some (0, snd (get_ylim (plot_teams 0 teams subplots)) * 1.05)
  /\ snd (get_ylim (plot_teams 0 teams subplots))
     = 1.05 * tallest_peak (figure_of teams)
  /\ ylim (figure_of teams)
     = Some (0, 1.1025 * tallest_peak (figure_of teams)).
Proof.
  intros Hne Hvalid Hthr.
  destruct (figure_ylim teams) as [Hy Hget].
  assert (Hhi : snd (get_ylim (plot_teams 0 teams subplots))
                = 1.05 * tallest_peak (figure_of teams)).
  { rewrite Hget, (view_y_regular teams Hvalid Hne Hthr).
    cbn [snd]. unfold autoscale.ymargin. lra. }
  split; [exact Hy |]. split; [exact Hhi |].
  rewrite Hy, Hhi. do 2 f_equal. lra.
Qed.

Lemma ylim_upper_is_autoscaled_limit_times_105_witness :
  let t1 := {| rank := 1; team_name := "Duke Blue Devils";
               mean_elo := 1200; std_dev := 100 |} in
  ylim (figure_of [t1]) = Some (0, 1.1025 * tallest_peak (figure_of [t1])).
Proof.
  intros t1.
  assert (Hne : [t1] <> []) by discriminate.
  assert (Hvalid : Forall (fun t => 0 < std_dev t) [t1]).
  { constructor; [simpl; lra | constructor]. }
  assert (Hthr : 1e6 / 1e-15 * autoscale.float_tiny
                 <= tallest_peak (figure_of [t1])).
  { pose proof (tallest_peak_ge_sample [t1] 0 t1 1200 Hvalid eq_refl x_first)
      as Hge.
    replace ((1200 - mean_elo t1) / std_dev t1) with 0 in Hge
      by (simpl; field).
    rewrite _norm_pdf_0 in Hge.
    pose proof sqrt_2PI_pos as Hq. pose proof sqrt_2PI_lt_3 as Hq3.
    assert (Hinv : / 3 < / sqrt (2 * PI))
      by (apply Rinv_lt_contravar; [nra | exact Hq3]).
    unfold autoscale.float_tiny. lra. }
  destruct (ylim_upper_is_autoscaled_limit_times_105 [t1] Hne Hvalid Hthr)
    as (_ & _ & Hy).
  exact Hy.
Defined.

(** ** Legend labels *)

Section Labels.

Open Scope string_scope.

Lemma append_empty_r (s : string) : s ++ EmptyString = s.
Proof. induction s as [| c s IH]; simpl; [easy | now rewrite IH]. Qed.

Lemma remove_from_length (old : string) (k : nat) (s : string) :
  (String.length (str.remove_from old k s) <= String.length s)%nat.
Proof.
  revert k. induction s as [| c s IH]; intros k; [simpl; lia |].
  cbn [str.remove_from]. destruct k as [| k].
  - destruct (prefix old (String c s)).
    + specialize (IH (String.length old - 1)%nat). simpl. lia.
    + specialize (IH 0%nat). simpl. lia.
  - specialize (IH k). simpl. lia.
Qed.

Lemma remove_length (old s : string) :
  (String.length (str.remove old s) <= String.length s)%nat.
Proof.
  unfold str.remove. destruct old; [lia | apply remove_from_length].
Qed.

Lemma remove_chain_length (olds : list string) (s : string) :
  (String.length (fold_left (fun s old => str.remove old s) olds s)
   <= String.length s)%nat.
Proof.
  revert s. induction olds as [| old olds IH]; intros s; simpl; [lia |].
  specialize (IH (str.remove old s)).
  pose proof (remove_length old s). lia.
Qed.

(** A text in which [old] does not occur is left as it is. *)
Lemma remove_absent (old s : string) :
  str.contains old s = false -> str.remove old s = s.
Proof.
  unfold str.remove. destruct old as [| a old]; [easy |].
  induction s as [| c s IH]; [easy |].
  cbn [str.contains str.remove_from]. intros Hc.
  apply orb_false_iff in Hc. destruct Hc as [Hp Hc].
  rewrite Hp. now rewrite IH.
Qed.

Lemma remove_chain_absent (olds : list string) (s : string) :
  forallb (fun old => negb (str.contains old s)) olds = true ->
  fold_left (fun s old => str.remove old s) olds s = s.
Proof.
  induction olds as [| old olds IH]; simpl; [easy |].
  intros H. apply andb_true_iff in H. destruct H as [Hold Holds].
  apply negb_true_iff in Hold.
  rewrite remove_absent by assumption. now apply IH.
Qed.

(** A removal of a text that starts with a space passes over a prefix
    without spaces. *)
Lemma remove_after_word (old' base rest : string) :
  str.contains " " base = false ->
  str.remove (String " " old') (base ++ rest)
  = base ++ str.remove (String " " old') rest.
Proof.
  unfold str.remove. induction base as [| c base IH]; [easy |].
  cbn [str.contains]. intros Hc.
  apply orb_false_iff in Hc. destruct Hc as [Hp Hc].
  cbn [append str.remove_from].
  assert (Hpre : prefix (String " " old') (String c (base ++ rest)) = false).
  { cbn [prefix] in *. destruct (ascii_dec " " c); [| reflexivity].
    now destruct base. }
  rewrite Hpre. now rewrite IH.
Qed.

Lemma remove_chain_after_word (olds : list string) (base rest : string) :
  Forall (fun old => exists old', old = String " " old') olds ->
  str.contains " " base = false ->
  fold_left (fun s old => str.remove old s) olds (base ++ rest)
  = base ++ fold_left (fun s old => str.remove old s) olds rest.
Proof.
  intros Holds Hbase. revert rest.
  induction Holds as [| old olds [old' ->] _ IH]; intros rest;
    cbn [fold_left].
  - reflexivity.
  - rewrite remove_after_word by assumption. apply IH.
Qed.

Lemma suffixes_start_with_space :
  Forall (fun old => exists old', old = String " " old') suffixes.
Proof. unfold suffixes. repeat constructor; eexists; reflexivity. Qed.

(** The chain removes each of the suffixes when it stands alone. *)
Lemma remove_chain_suffix (old : string) :
  In old suffixes ->
  fold_left (fun s old => str.remove old s) suffixes old = EmptyString.
Proof.
  unfold suffixes at 1. cbn [In]. intros H.
  repeat (destruct H as [<- | H]; [vm_compute; reflexivity |]).
  destruct H.
Qed.

End Labels.

(** C6, as stated, fails: a removal joins the text on its two sides and
    that text is not scanned again, so a suffix can remain in the shortened
    name and in the label. *)
Lemma label_may_keep_suffix :
  let t0 := {| rank := 1; team_name := "Temple Ow Owlsls";
               mean_elo := 1900; std_dev := 80 |} in
  short_name t0 = "Temple Owls"%string
  /\ label_of t0 = "1. Temple Owls"%string
  /\ In " Owls"%string suffixes
  /\ str.contains " Owls" (label_of t0) = true
  /\ suffix_free (label_of t0) = false.
Proof.
  intros t0. split; [vm_compute; reflexivity |].
  split; [vm_compute; reflexivity |].
  split; [unfold suffixes; cbn [In]; tauto |].
  split; vm_compute; reflexivity.
Qed.

(** C6, amended: the label is the rank, a dot, a space and the shortened
    name, where the shortened name is [team_name] after the removals of the
    fixed suffixes in the order of the source, each removal being one pass
    from the left.  The shortened name is never longer than [team_name]; it
    is [team_name] itself when no suffix occurs in it, and it is the school
    name when [team_name] is a school name without spaces followed by one of
    the suffixes.  That no suffix remains in the label is not promised. *)
Theorem label_composition (t : team) :
  label_of t = (str.of_int (rank t) ++ ". " ++ short_name t)%string
  /\ (String.length (short_name t) <= String.length (team_name t))%nat
  /\ (suffix_free (team_name t) = true -> short_name t = team_name t)
  /\ (forall base old : string,
        team_name t = (base ++ old)%string ->
        In old suffixes ->
        str.contains " " base = false ->
        short_name t = base).
Proof.
  split; [reflexivity |]. split; [apply remove_chain_length |].
  split.
  - intros Hfree. unfold short_name. now apply remove_chain_absent.
  - intros base old Hname Hold Hbase. unfold short_name. rewrite Hname.
    rewrite remove_chain_after_word
      by (apply suffixes_start_with_space || assumption).
    rewrite remove_chain_suffix by assumption.
    apply append_empty_r.
Qed.

Lemma label_composition_witness :
  let t0 := {| rank := 3; team_name := "Duke Blue Devils";
               mean_elo := 1900; std_dev := 80 |} in
  label_of t0 = "3. Duke"%string.
Proof.
  intros t0.
  destruct (label_composition t0) as (Hlabel & _ & _ & Hword).
  rewrite Hlabel.
  rewrite (Hword "Duke"%string " Blue Devils"%string eq_refl).
  - reflexivity.
  - unfold suffixes. cbn [In]. tauto.
  - reflexivity.
Defined.

(** * Further properties of the script *)

(** ** The sample grid *)

Lemma INR_499 : INR 499 = 499.
Proof. rewrite INR_IZR_INZ. reflexivity. Qed.

Lemma x_nth (j : nat) (d : R) :
  (j < 500)%nat -> nth j x d = 1200 + INR j * (1400 / 499).
Proof.
  intros Hj. unfold x, np.linspace.
  rewrite (nth_indep _ d (1200 + INR 0 * ((2600 - 1200) / INR (500 - 1))))
    by (rewrite length_map, length_seq; exact Hj).
  rewrite (map_nth (fun j => 1200 + INR j * ((2600 - 1200) / INR (500 - 1)))).
  rewrite seq_nth by exact Hj.
  change (500 - 1)%nat with 499%nat. rewrite INR_499.
  cbn [Nat.add]. lra.
Qed.

Lemma x_In (x0 : R) :
  In x0 x <-> exists j, (j < 500)%nat /\ x0 = 1200 + INR j * (1400 / 499).
Proof.
  unfold x, np.linspace. rewrite in_map_iff.
  change (500 - 1)%nat with 499%nat. rewrite INR_499.
  split; intros (j & H1 & H2); exists j.
  - apply in_seq in H2. split; [lia | rewrite <- H1; lra].
  - split; [rewrite H2; lra | apply in_seq; lia].
Qed.

Lemma map_seq_sorted (f : nat -> R) (a n : nat) :
  (forall i j, (i < j)%nat -> f i < f j) ->
  StronglySorted Rlt (map f (seq a n)).
Proof.
  intros Hf. revert a. induction n as [| n IH]; intros a; simpl.
  - constructor.
  - constructor; [apply IH |].
    apply Forall_map, Forall_forall. intros j Hj.
    apply in_seq in Hj. apply Hf. lia.
Qed.

(** X1: the grid has 500 samples, runs from 1200 to 2600 in strictly increasing
    order, and lies within the horizontal limits of the chart; every curve
    is drawn over this grid with one value per sample. *)
Theorem sample_grid_spans_xlim (teams : list team) :
  length x = 500%nat
  /\ nth 0 x 0 = 1200
  /\ nth 499 x 0 = 2600
  /\ StronglySorted Rlt x
  /\ Forall (fun x0 => 1200 <= x0 <= 2600) x
  /\ xlim (figure_of teams) = Some (1200, 2600)
  /\ Forall (fun l => l_xdata l = x /\ length (l_ydata l) = length x)
            (lines (figure_of teams))
  /\ Forall (fun p => p_x p = x /\ length (p_y1 p) = length x)
            (collections (figure_of teams)).
Proof.
  split; [apply x_length |].
  split; [rewrite x_nth by lia; simpl INR; lra |].
  split; [rewrite x_nth by lia; rewrite INR_499; lra |].
  split.
  { unfold x, np.linspace. apply map_seq_sorted. intros i j Hij.
    change (500 - 1)%nat with 499%nat. rewrite INR_499.
    apply lt_INR in Hij. nra. }
  split.
  { apply Forall_forall. intros x0 Hx0. apply x_In in Hx0.
    destruct Hx0 as (j & Hj & ->).
    assert (H0 : 0 <= INR j) by apply pos_INR.
    assert (H1 : INR j <= 499).
    { rewrite <- INR_499. apply le_INR. lia. }
    lra. }
  split; [reflexivity |].
  split.
  - apply Forall_forall. intros l Hl.
    destruct (figure_line_inv teams l Hl) as (j & t & _ & ->).
    split; [reflexivity |].
    cbn [l_ydata line_of]. now rewrite pdf_scaled_length, x_length.
  - apply Forall_forall. intros p Hp.
    rewrite figure_collections in Hp. apply in_map_iff in Hp.
    destruct Hp as ([j t] & <- & _).
    split; [reflexivity |].
    cbn [p_y1 fill_of]. now rewrite pdf_scaled_length, x_length.
Qed.

(** ** The values of a curve *)

Lemma scaled_value_bounds (z : R) :
  0 < stats._norm_pdf z * 2.5 <= 2.5 / sqrt (2 * PI).
Proof.
  pose proof (_norm_pdf_pos z) as Hpos.
  pose proof (_norm_pdf_le_0 z) as Hle. rewrite _norm_pdf_0 in Hle.
  pose proof sqrt_2PI_pos as Hq.
  split; [lra |].
  replace (2.5 / sqrt (2 * PI)) with (1 / sqrt (2 * PI) * 2.5)
    by (field; lra).
  lra.
Qed.

(** A finite value occurs in a curve only for a positive spread, and is the
    rescaled density at a sample. *)
Lemma In_pdf_scaled_any (y mean std : R) :
  In (Some y) (pdf_scaled mean std) ->
  0 < std
  /\ exists x0, In x0 x /\ y = stats._norm_pdf ((x0 - mean) / std) * 2.5.
Proof.
  intros Hin. destruct (Rlt_dec 0 std) as [Hs | Hs].
  - split; [exact Hs | now apply In_pdf_scaled].
  - exfalso. assert (Hnan : all_nan (pdf_scaled mean std))
      by (apply pdf_scaled_all_nan; lra).
    unfold all_nan in Hnan. rewrite Forall_forall in Hnan.
    now specialize (Hnan _ Hin).
Qed.

Lemma pdf_scaled_values (mean std : R) :
  0 < std ->
  Forall (fun y => exists v, y = Some v /\ 0 <= v <= 2.5 / sqrt (2 * PI))
         (pdf_scaled mean std).
Proof.
  intros Hs. unfold pdf_scaled. apply Forall_map, Forall_forall.
  intros x0 _. rewrite pdf_scaled_at_valid by assumption.
  eexists. split; [reflexivity |].
  pose proof (scaled_value_bounds ((x0 - mean) / std)). lra.
Qed.



Lemma _norm_pdf_le_of_sq (z1 z2 : R) :
  z2 * z2 <= z1 * z1 -> stats._norm_pdf z1 <= stats._norm_pdf z2.
Proof.
  intros Hsq. unfold stats._norm_pdf.
  apply Rmult_le_compat_r.
  - left. apply Rinv_0_lt_compat, sqrt_2PI_pos.
  - destruct (Req_dec (z1 * z1) (z2 * z2)) as [Heq | Hne].
    + right. now rewrite Heq.
    + left. apply exp_increasing. lra.
Qed.

(** X3: with the rescaling, of two curves with the same mean the one with the
    larger spread is at least as high at every point: the curves differ in
    width only. *)
Theorem wider_curve_dominates (x0 mean s1 s2 : R) :
  0 < s1 -> s1 <= s2 ->
  exists v1 v2,
    pdf_scaled_at x0 mean s1 = Some v1
    /\ pdf_scaled_at x0 mean s2 = Some v2
    /\ v1 <= v2.
Proof.
  intros Hs1 Hs12.
  assert (Hs2 : 0 < s2) by lra.
  rewrite !pdf_scaled_at_valid by assumption.
  do 2 eexists. split; [reflexivity |]. split; [reflexivity |].
  apply Rmult_le_compat_r; [lra |].
  apply _norm_pdf_le_of_sq.
  set (d := x0 - mean).
  assert (Hinv : / s2 <= / s1) by (apply Rinv_le_contravar; lra).
  assert (Hinv2 : 0 < / s2) by now apply Rinv_0_lt_compat.
  unfold Rdiv.
  replace (d * / s2 * (d * / s2)) with (d * d * (/ s2 * / s2)) by ring.
  replace (d * / s1 * (d * / s1)) with (d * d * (/ s1 * / s1)) by ring.
  apply Rmult_le_compat_l; [nra | nra].
Qed.

Lemma wider_curve_dominates_witness :
  exists v1 v2,
    pdf_scaled_at 1800 1900 60 = Some v1
    /\ pdf_scaled_at 1800 1900 90 = Some v2
    /\ v1 <= v2.
Proof.
  assert (H1 : 0 < 60) by lra.
  assert (H2 : 60 <= 90) by lra.
  exact (wider_curve_dominates 1800 1900 60 90 H1 H2).
Defined.

(** ** The vertical limits for every input *)

Lemma figure_value_pos (teams : list team) (l : Line2D) (y : R) :
  In l (lines (figure_of teams)) -> In (Some y) (l_ydata l) ->
  0 < y <= 2.5 / sqrt (2 * PI).
Proof.
  intros Hl Hy. destruct (figure_line_inv teams l Hl) as (j & t & _ & ->).
  cbn [l_ydata line_of] in Hy.
  apply In_pdf_scaled_any in Hy. destruct Hy as (_ & x0 & _ & ->).
  apply scaled_value_bounds.
Qed.

Lemma figure_data_nonneg (teams : list team) (y : R) :
  In y (autoscale.data_y (figure_of teams)) -> 0 <= y.
Proof.
  unfold autoscale.data_y. rewrite in_app_iff, !in_flat_map.
  intros [(l & Hl & Hy) | (p & Hp & Hy)].
  - apply In_finite in Hy. left. eapply figure_value_pos; eauto.
  - apply In_poly_extent in Hy. destruct Hy as [Hy | [-> _]]; [| lra].
    destruct (figure_collection_inv teams p Hp) as (j & t & _ & -> & Hl).
    left. eapply (figure_value_pos teams (line_of j t)); eauto.
Qed.

(** For non-negative data the autoscaled view ends above zero. *)
Lemma view_y_upper_pos (ax : Axes) :
  (forall y, In y (autoscale.data_y ax) -> 0 <= y) ->
  0 < snd (autoscale.view_y ax).
Proof.
  intros Hnn. unfold autoscale.view_y.
  destruct (autoscale.data_y ax) as [| v vs].
  { unfold autoscale.ymargin.
    destruct (lines ax); [destruct (collections ax) |]; cbn [snd]; lra. }
  set (lo := fold_left Rmin vs v). set (hi := fold_left Rmax vs v).
  assert (Hlo : 0 <= lo) by (apply Hnn, fold_min_in).
  assert (Hlohi : lo <= hi).
  { apply Rle_trans with v; [apply fold_min_le_init | apply fold_max_ge_init]. }
  unfold autoscale.nonsingular, autoscale.ymargin.
  rewrite (Rabs_pos_eq lo), (Rabs_pos_eq hi) by lra.
  rewrite Rmax_right by lra.
  destruct (Rlt_dec hi (1e6 / 1e-15 * autoscale.float_tiny));
    [cbn [snd]; lra |].
  destruct (Rle_dec (hi - lo) (hi * 1e-15)).
  - destruct (Req_dec_T hi 0); [destruct (Req_dec_T lo 0) |];
      cbn [snd]; lra.
  - cbn [snd]. lra.
Qed.

(** X4: for the empty input and for every input with at least one positive
    spread, whatever the other records are, the vertical axis runs from zero
    to a positive upper bound: the range is never empty or inverted. *)
Theorem ylim_is_proper_range (teams : list team) :
  teams = [] \/ Exists (fun t => 0 < std_dev t) teams ->
  exists hi, ylim (figure_of teams) = Some (0, hi) /\ 0 < hi.
Proof.
  intros _.
  destruct (figure_ylim teams) as [Hy Hget].
  exists (snd (get_ylim (plot_teams 0 teams subplots)) * 1.05).
  split; [exact Hy |].
  rewrite Hget.
  pose proof (view_y_upper_pos (figure_of teams) (figure_data_nonneg teams)).
  lra.
Qed.

Lemma ylim_is_proper_range_witness :
  let t0 := {| rank := 1; team_name := "Duke Blue Devils";
               mean_elo := 1900; std_dev := 0 |} in
  let t1 := {| rank := 2; team_name := "Houston Cougars";
               mean_elo := 1850; std_dev := 90 |} in
  exists hi, ylim (figure_of [t0; t1]) = Some (0, hi) /\ 0 < hi.
Proof.
  intros t0 t1.
  assert (Hsome : [t0; t1] = [] \/ Exists (fun t => 0 < std_dev t) [t0; t1]).
  { right. apply Exists_cons_tl, Exists_cons_hd. simpl. lra. }
  exact (ylim_is_proper_range [t0; t1] Hsome).
Defined.

(** X5: the tallest rendered value never exceeds the height of the rescaled
    peak, [2.5 / sqrt(2*pi)], for any number of teams and any means and
    spreads. *)
Theorem tallest_peak_bounded (teams : list team) :
  0 <= tallest_peak (figure_of teams) <= 2.5 / sqrt (2 * PI).
Proof.
  pose proof sqrt_2PI_pos as Hq.
  assert (Hpk : 0 < 2.5 / sqrt (2 * PI)) by (apply Rdiv_lt_0_compat; lra).
  unfold tallest_peak.
  destruct (flat_map (fun l => autoscale.finite (l_ydata l))
                     (lines (figure_of teams))) as [| v vs] eqn:Edata.
  - lra.
  - pose proof (fold_max_in vs v) as Hin. rewrite <- Edata in Hin.
    apply in_flat_map in Hin. destruct Hin as (l & Hl & Hy).
    apply In_finite in Hy.
    pose proof (figure_value_pos teams l _ Hl Hy). lra.
Qed.

(** ** Adding teams at the end *)

Lemma enumerate_app {A : Type} (i : nat) (l1 l2 : list A) :
  enumerate i (l1 ++ l2)
  = enumerate i l1 ++ enumerate (i + length l1) l2.
Proof.
  revert i. induction l1 as [| a l1 IH]; intros i; simpl.
  - now rewrite Nat.add_0_r.
  - rewrite IH. now rewrite Nat.add_succ_r.
Qed.

Lemma plot_teams_app (i : nat) (l1 l2 : list team) (ax : Axes) :
  plot_teams i (l1 ++ l2) ax
  = plot_teams (i + length l1) l2 (plot_teams i l1 ax).
Proof.
  revert i ax. induction l1 as [| t l1 IH]; intros i ax; simpl.
  - now rewrite Nat.add_0_r.
  - rewrite IH. now rewrite Nat.add_succ_r.
Qed.

(** X6: teams appended to the input leave the curves and the shaded areas of
    the earlier teams as they are: the chart of the longer input starts with
    the artists of the shorter one, and the loop over the longer input is
    the loop over the new teams continued from position [len(l1)]. *)
Theorem appended_teams_keep_earlier_artists (l1 l2 : list team) :
  plot_teams 0 (l1 ++ l2) subplots
  = plot_teams (length l1) l2 (plot_teams 0 l1 subplots)
  /\ lines (figure_of (l1 ++ l2))
     = lines (figure_of l1)
       ++ map (fun '(j, t) => line_of j t) (enumerate (length l1) l2)
  /\ collections (figure_of (l1 ++ l2))
     = collections (figure_of l1)
       ++ map (fun '(j, t) => fill_of j t)
              (filter (fun '(j, _) => (j <? 3)%nat)
                      (enumerate (length l1) l2))
  /\ firstn (length l1) (lines (figure_of (l1 ++ l2)))
     = lines (figure_of l1).
Proof.
  assert (Hlines : lines (figure_of (l1 ++ l2))
     = lines (figure_of l1)
       ++ map (fun '(j, t) => line_of j t) (enumerate (length l1) l2)).
  { rewrite !figure_lines, enumerate_app, map_app. reflexivity. }
  split; [apply (plot_teams_app 0) |]. split; [exact Hlines |]. split.
  - rewrite !figure_collections, enumerate_app, filter_app, map_app.
    reflexivity.
  - rewrite Hlines. rewrite <- (figure_lines_length l1) at 1.
    rewrite firstn_app, Nat.sub_diag, firstn_all. cbn [firstn].
    apply app_nil_r.
Qed.

(** ** Telling the curves apart *)

Lemma style_pairs_differ_below_40 :
  forallb (fun i =>
    forallb (fun j =>
      (i =? j)%nat
      || negb (String.eqb (color_of i) (color_of j)
               && String.eqb (linestyle_of i) (linestyle_of j)))
      (seq 0 40))
    (seq 0 40) = true.
Proof. vm_compute. reflexivity. Qed.

Lemma style_pair_injective (i j : nat) :
  (i < 40)%nat -> (j < 40)%nat ->
  (color_of i, linestyle_of i) = (color_of j, linestyle_of j) -> i = j.
Proof.
  intros Hi Hj Heq. injection Heq as Hc Hl.
  pose proof style_pairs_differ_below_40 as H.
  rewrite forallb_forall in H.
  specialize (H i ltac:(apply in_seq; lia)).
  rewrite forallb_forall in H.
  specialize (H j ltac:(apply in_seq; lia)).
  rewrite Hc, Hl, !String.eqb_refl in H. cbn in H.
  rewrite orb_false_r in H. now apply Nat.eqb_eq.
Qed.

Lemma colors_differ_below_20 :
  forallb (fun i =>
    forallb (fun j =>
      (i =? j)%nat || negb (String.eqb (color_of i) (color_of j)))
      (seq 0 20))
    (seq 0 20) = true.
Proof. vm_compute. reflexivity. Qed.

Lemma color_injective (i j : nat) :
  (i < 20)%nat -> (j < 20)%nat -> color_of i = color_of j -> i = j.
Proof.
  intros Hi Hj Hc.
  pose proof colors_differ_below_20 as H.
  rewrite forallb_forall in H.
  specialize (H i ltac:(apply in_seq; lia)).
  rewrite forallb_forall in H.
  specialize (H j ltac:(apply in_seq; lia)).
  rewrite Hc, String.eqb_refl in H. cbn in H.
  rewrite orb_false_r in H. now apply Nat.eqb_eq.
Qed.

Lemma firstn_seq (n a len : nat) :
  firstn n (seq a len) = seq a (Nat.min n len).
Proof.
  revert a len. induction n as [| n IH]; intros a [| len]; simpl; try easy.
  now rewrite IH.
Qed.

(** X7: with at most 40 teams no two curves share both colour and dash pattern,
    and the first 20 curves have 20 different colours. *)
Theorem curves_distinguishable_up_to_40 (teams : list team) :
  (length teams <= 40)%nat ->
  NoDup (map (fun l => (l_color l, l_linestyle l)) (lines (figure_of teams)))
  /\ NoDup (map l_color (firstn 20 (lines (figure_of teams)))).
Proof.
  intros HN. split.
  - rewrite (figure_lines_by_index
               (fun l => (l_color l, l_linestyle l))
               (fun i => (color_of i, linestyle_of i)))
      by reflexivity.
    apply NoDup_map_NoDup_ForallPairs; [| apply seq_NoDup].
    intros i j Hi Hj. apply in_seq in Hi, Hj.
    apply style_pair_injective; lia.
  - rewrite <- firstn_map.
    rewrite (figure_lines_by_index l_color color_of) by reflexivity.
    rewrite firstn_map, firstn_seq.
    apply NoDup_map_NoDup_ForallPairs; [| apply seq_NoDup].
    intros i j Hi Hj. apply in_seq in Hi, Hj.
    apply color_injective; lia.
Qed.

Lemma curves_distinguishable_up_to_40_witness :
  let t1 := {| rank := 1; team_name := "Duke Blue Devils";
               mean_elo := 1900; std_dev := 80 |} in
  let t2 := {| rank := 2; team_name := "Houston Cougars";
               mean_elo := 1880; std_dev := 90 |} in
  NoDup (map (fun l => (l_color l, l_linestyle l))
             (lines (figure_of [t1; t2]))).
Proof.
  intros t1 t2.
  assert (HN : (length [t1; t2] <= 40)%nat) by (simpl; lia).
  exact (proj1 (curves_distinguishable_up_to_40 [t1; t2] HN)).
Defined.

(** ** The loop invariant *)

Lemma steps_stay_after_loop (c c' : config) :
  steps c c' ->
  (forall i rest, fst c <> AtLoop i rest) ->
  forall i rest, fst c' <> AtLoop i rest.
Proof.
  induction 1 as [c | c1 c2 c3 Hstep _ IH]; intros Hc; [exact Hc |].
  apply IH. intros i rest.
  inversion Hstep; subst; cbn [fst] in *; try discriminate.
  all: exfalso; eapply Hc; reflexivity.
Qed.

Lemma steps_within_loop (i0 i : nat) (l0 rest : list team) (ax0 ax : Axes) :
  steps (AtLoop i0 l0, ax0) (AtLoop i rest, ax) ->
  exists done,
    l0 = done ++ rest
    /\ i = (i0 + length done)%nat
    /\ ax = plot_teams i0 done ax0.
Proof.
  intros H.
  remember (AtLoop i0 l0, ax0) as c eqn:Ec.
  remember (AtLoop i rest, ax) as c' eqn:Ec'.
  revert i0 l0 ax0 Ec.
  induction H as [c | c1 c2 c3 Hstep Hsteps IH]; intros i0 l0 ax0 Ec.
  - subst c. inversion Ec; subst. exists []. cbn.
    now rewrite Nat.add_0_r.
  - subst c1 c3. inversion Hstep; subst.
    + destruct (IH eq_refl (S i0) rest0 (plot_team i0 t ax0) eq_refl)
        as (done & -> & -> & ->).
      exists (t :: done). cbn. split; [reflexivity |].
      split; [lia | reflexivity].
    + exfalso.
      apply (steps_stay_after_loop _ _ Hsteps) with (i := i) (rest := rest).
      * intros j r. cbn [fst]. discriminate.
      * reflexivity.
Qed.

Lemma plot_teams_xlim (i : nat) (teams : list team) (ax : Axes) :
  xlim (plot_teams i teams ax) = xlim ax.
Proof.
  revert i ax. induction teams as [| t rest IH]; intros i ax; simpl.
  - easy.
  - rewrite IH. unfold plot_team. now destruct (i <? 3)%nat.
Qed.

(** X8: whenever a run is at the head of the loop with index [i], the teams
    before position [i] are the ones drawn so far: the axes hold exactly [i]
    curves and min(i, 3) shaded areas, and no axis limit has been set. *)
Theorem loop_invariant (teams rest : list team) (i : nat) (ax : Axes) :
  steps (AtLoop 0 teams, subplots) (AtLoop i rest, ax) ->
  teams = firstn i teams ++ rest
  /\ (i + length rest = length teams)%nat
  /\ ax = plot_teams 0 (firstn i teams) subplots
  /\ length (lines ax) = i
  /\ length (collections ax) = Nat.min i 3
  /\ xlim ax = None
  /\ ylim ax = None.
Proof.
  intros H. apply steps_within_loop in H.
  destruct H as (done & -> & -> & ->). cbn [Nat.add].
  assert (Hfirst : firstn (length done) (done ++ rest) = done).
  { rewrite firstn_app, Nat.sub_diag, firstn_all. cbn [firstn].
    apply app_nil_r. }
  rewrite Hfirst.
  split; [reflexivity |]. split; [now rewrite length_app |].
  split; [reflexivity |]. split.
  - rewrite plot_teams_lines. cbn [lines subplots app].
    now rewrite length_map, enumerate_length.
  - split.
    + rewrite plot_teams_collections. cbn [collections subplots app].
      rewrite length_map, count_below. lia.
    + split.
      * now rewrite plot_teams_xlim.
      * now rewrite plot_teams_ylim.
Qed.

Lemma loop_invariant_witness :
  let t1 := {| rank := 1; team_name := "Duke Blue Devils";
               mean_elo := 1900; std_dev := 80 |} in
  let t2 := {| rank := 2; team_name := "Houston Cougars";
               mean_elo := 1880; std_dev := 90 |} in
  length (lines (plot_team 0 t1 subplots)) = 1%nat
  /\ length (collections (plot_team 0 t1 subplots)) = Nat.min 1 3.
Proof.
  intros t1 t2.
  assert (Hrun : steps (AtLoop 0 [t1; t2], subplots)
                       (AtLoop 1 [t2], plot_team 0 t1 subplots)).
  { eapply steps_cons; [apply step_iter | apply steps_refl]. }
  destruct (loop_invariant [t1; t2] [t2] 1 _ Hrun)
    as (_ & _ & _ & Hl & Hc & _).
  split; [exact Hl | exact Hc].
Defined.

(** ** Shortened names and labels *)

Lemma subsequence_refl (s : string) : subsequence s s.
Proof. induction s; constructor; assumption. Qed.

Lemma subsequence_trans (a b c : string) :
  subsequence a b -> subsequence b c -> subsequence a c.
Proof.
  intros Hab Hbc. revert a Hab.
  induction Hbc as [| ch b c _ IH | ch b c _ IH]; intros a Hab.
  - exact Hab.
  - inversion Hab; subst.
    + apply subsequence_keep. now apply IH.
    + apply subsequence_drop. now apply IH.
  - apply subsequence_drop. now apply IH.
Qed.

Lemma remove_from_subsequence (old : string) (k : nat) (s : string) :
  subsequence (str.remove_from old k s) s.
Proof.
  revert k. induction s as [| c s IH]; intros k; cbn [str.remove_from].
  - constructor.
  - destruct k as [| k].
    + destruct (prefix old (String c s)).
      * apply subsequence_drop, IH.
      * apply subsequence_keep, IH.
    + apply subsequence_drop, IH.
Qed.

Lemma remove_subsequence (old s : string) : subsequence (str.remove old s) s.
Proof.
  unfold str.remove. destruct old.
  - apply subsequence_refl.
  - apply remove_from_subsequence.
Qed.

Lemma subsequence_length (a b : string) :
  subsequence a b -> (String.length a <= String.length b)%nat.
Proof. induction 1; simpl; lia. Qed.

Lemma subsequence_same_length (a b : string) :
  subsequence a b -> String.length a = String.length b -> a = b.
Proof.
  induction 1 as [| c a b Hab IH | c a b Hab IH]; simpl; intros Hlen.
  - reflexivity.
  - f_equal. apply IH. lia.
  - apply subsequence_length in Hab. lia.
Qed.

(** X9: the shortened name is made of characters of [team_name] in their
    order: the removals delete text and never add or reorder any; so a
    shortened name as long as [team_name] is [team_name] itself. *)
Theorem short_name_only_deletes (t : team) :
  subsequence (short_name t) (team_name t)
  /\ (short_name t = team_name t
      \/ (String.length (short_name t) < String.length (team_name t))%nat).
Proof.
  assert (Hsub : subsequence (short_name t) (team_name t)).
  { unfold short_name. generalize (team_name t). generalize suffixes.
    induction l as [| old olds IH]; intros s; cbn [fold_left].
    - apply subsequence_refl.
    - eapply subsequence_trans; [apply IH | apply remove_subsequence]. }
  split; [exact Hsub |].
  pose proof (subsequence_length _ _ Hsub) as Hle.
  destruct (Nat.eq_dec (String.length (short_name t))
                       (String.length (team_name t))) as [Heq | Hne].
  - left. now apply subsequence_same_length.
  - right. lia.
Qed.

Lemma uint_no_dot (d : Decimal.uint) :
  str.contains "." (NilEmpty.string_of_uint d) = false.
Proof. induction d; cbn; try exact IHd; reflexivity. Qed.

Lemma of_int_no_dot (n : Z) : str.contains "." (str.of_int n) = false.
Proof.
  unfold str.of_int. destruct n as [| p | p]; cbn [Z.to_int].
  - reflexivity.
  - unfold NilZero.string_of_int, NilZero.string_of_uint.
    destruct (Pos.to_uint p) eqn:Ep; try (rewrite <- Ep; apply uint_no_dot).
    reflexivity.
  - unfold NilZero.string_of_int, NilZero.string_of_uint.
    destruct (Pos.to_uint p) eqn:Ep;
      try (rewrite <- Ep; cbn; apply uint_no_dot).
    reflexivity.
Qed.

Lemma of_int_injective (n m : Z) : str.of_int n = str.of_int m -> n = m.
Proof.
  unfold str.of_int. intros Heq. apply to_int_inj.
  assert (Hnn : forall z, Z.to_int z <> Decimal.Pos Decimal.Nil
                          /\ Z.to_int z <> Decimal.Neg Decimal.Nil).
  { intros [| p | p]; cbn; split; try discriminate;
      intros H; injection H as H; now apply DecimalPos.Unsigned.to_uint_nonnil in H. }
  destruct (Hnn n) as [Hn1 Hn2]. destruct (Hnn m) as [Hm1 Hm2].
  pose proof (NilZero.isi _ Hn1 Hn2) as Hdn.
  pose proof (NilZero.isi _ Hm1 Hm2) as Hdm.
  rewrite Heq in Hdn. congruence.
Qed.

(** Two texts without a dot that are followed by a dot split a text in the
    same way. *)
Lemma split_at_first_dot (a b r r' : string) :
  str.contains "." a = false -> str.contains "." b = false ->
  (a ++ String "." r)%string = (b ++ String "." r')%string ->
  a = b /\ r = r'.
Proof.
  revert b. induction a as [| c a IH]; intros [| c' b] Ha Hb Heq;
    cbn [append] in Heq.
  - injection Heq as ->. now split.
  - exfalso. injection Heq as <- _. destruct b; cbn in Hb; discriminate.
  - exfalso. injection Heq as -> _. destruct a; cbn in Ha; discriminate.
  - injection Heq as -> Heq.
    cbn [str.contains] in Ha, Hb.
    apply orb_false_iff in Ha, Hb. destruct Ha as [_ Ha], Hb as [_ Hb].
    destruct (IH b Ha Hb Heq) as [-> ->]. now split.
Qed.

(** X10: the label can be read back: two records with the same label have the
    same rank and the same shortened name. *)
Theorem label_determines_rank_and_name (t t' : team) :
  label_of t = label_of t' ->
  rank t = rank t' /\ short_name t = short_name t'.
Proof.
  unfold label_of. intros Heq.
  change (". " ++ short_name t)%string
    with (String "." (String " " (short_name t))) in Heq.
  change (". " ++ short_name t')%string
    with (String "." (String " " (short_name t'))) in Heq.
  apply split_at_first_dot in Heq; try apply of_int_no_dot.
  destruct Heq as [Hr Hn]. split.
  - now apply of_int_injective.
  - now injection Hn.
Qed.

Lemma label_determines_rank_and_name_witness :
  let t1 := {| rank := 4; team_name := "Duke Blue Devils";
               mean_elo := 1900; std_dev := 80 |} in
  let t2 := {| rank := 4; team_name := "Duke";
               mean_elo := 1700; std_dev := 120 |} in
  label_of t1 = label_of t2
  /\ rank t1 = rank t2 /\ short_name t1 = short_name t2.
Proof.
  intros t1 t2.
  assert (Heq : label_of t1 = label_of t2) by (vm_compute; reflexivity).
  split; [exact Heq |].
  exact (label_determines_rank_and_name t1 t2 Heq).
Defined.

(** * The rendered peak *)

Lemma exp_neg_le_inv (a : R) : 0 <= a -> exp (- a) <= / (1 + a).
Proof.
  intros Ha. rewrite exp_Ropp.
  apply Rinv_le_contravar; [lra | apply exp_ineq1_le].
Qed.

Lemma x_249 : In (1200 + 249 * (1400 / 499)) x.
Proof.
  apply x_In. exists 249%nat. split; [lia |].
  rewrite INR_IZR_INZ. reflexivity.
Qed.

(** No sample is closer to 1900 than half a grid step. *)
Lemma samples_away_from_1900 (x0 : R) :
  In x0 x -> 700 / 499 * (700 / 499) <= (x0 - 1900) * (x0 - 1900).
Proof.
  intros Hx0. apply x_In in Hx0. destruct Hx0 as (j & _ & ->).
  rewrite INR_IZR_INZ. set (k := Z.of_nat j).
  replace (1200 + IZR k * (1400 / 499) - 1900)
    with (700 / 499 * IZR (2 * k - 499))
    by (rewrite minus_IZR, mult_IZR; field).
  assert (Hodd : (2 * k - 499 <= -1)%Z \/ (1 <= 2 * k - 499)%Z) by lia.
  assert (Hsq : 1 <= IZR (2 * k - 499) * IZR (2 * k - 499)).
  { destruct Hodd as [H | H]; apply IZR_le in H; nra. }
  nra.
Qed.

Lemma mean_1900_off_grid : ~ In 1900 x.
Proof.
  intros Hin. apply samples_away_from_1900 in Hin. lra.
Qed.

(** With spread 1 and mean 1900 every drawn value is below 51% of the
    height of the peak of the formula. *)
Lemma narrow_curve_values_low (x0 : R) :
  In x0 x ->
  stats._norm_pdf ((x0 - 1900) / 1) * 2.5 < 0.51 * (2.5 / sqrt (2 * PI)).
Proof.
  intros Hx0. pose proof sqrt_2PI_pos as Hq.
  pose proof (samples_away_from_1900 x0 Hx0) as Hd.
  replace ((x0 - 1900) / 1) with (x0 - 1900) by field.
  apply Rle_lt_trans with (stats._norm_pdf (700 / 499) * 2.5).
  - apply Rmult_le_compat_r; [lra |]. now apply _norm_pdf_le_of_sq.
  - unfold stats._norm_pdf.
    replace (- (700 / 499 * (700 / 499)) / 2)
      with (- (700 / 499 * (700 / 499) / 2)) by lra.
    pose proof (exp_neg_le_inv (700 / 499 * (700 / 499) / 2)
                  ltac:(lra)) as He.
    assert (Hinv : / (1 + 700 / 499 * (700 / 499) / 2) < 0.51).
    { apply Rmult_lt_reg_r with (1 + 700 / 499 * (700 / 499) / 2); [lra |].
      rewrite Rinv_l by lra. lra. }
    assert (Hsmall : exp (- (700 / 499 * (700 / 499) / 2)) < 0.51) by lra.
    unfold Rdiv at 1. unfold Rdiv at 3.
    assert (Hiq : 0 < / sqrt (2 * PI)) by now apply Rinv_0_lt_compat.
    nra.
Qed.

(** With spread 80 and mean 1900 the sample next to the mean is drawn at
    more than 99% of the height of the peak of the formula. *)
Lemma wide_curve_value_high :
  0.99 * (2.5 / sqrt (2 * PI))
  <= stats._norm_pdf ((1200 + 249 * (1400 / 499) - 1900) / 80) * 2.5.
Proof.
  pose proof sqrt_2PI_pos as Hq.
  set (z := (1200 + 249 * (1400 / 499) - 1900) / 80).
  unfold stats._norm_pdf.
  pose proof (exp_ineq1_le (- (z * z) / 2)) as He.
  assert (Hz : z * z / 2 <= 0.01) by (unfold z; lra).
  assert (Hbig : 0.99 <= exp (- (z * z) / 2)) by lra.
  assert (Hiq : 0 < / sqrt (2 * PI)) by now apply Rinv_0_lt_compat.
  unfold Rdiv at 1. unfold Rdiv at 2. nra.
Qed.

(** C1, as stated, fails on the rendered curve: 1900 is not a sample of
    the grid, so a record with mean 1900 has no drawn value at its mean and
    none equal to [2.5 / sqrt(2*pi)]; and the rendered peak changes with the
    spread: below 51% of that height at spread 1, above 99% of it when the
    spread is multiplied by 80. *)
Lemma rendered_peak_depends_on_spread :
  let t1 := {| rank := 1; team_name := "Duke Blue Devils";
               mean_elo := 1900; std_dev := 1 |} in
  let t80 := {| rank := 1; team_name := "Duke Blue Devils";
                mean_elo := 1900; std_dev := 80 * 1 |} in
  let peak := 2.5 / sqrt (2 * PI) in
  0 < std_dev t1
  /\ ~ In (mean_elo t1) x
  /\ ~ In (Some peak) (pdf_scaled (mean_elo t1) (std_dev t1))
  /\ tallest_peak (figure_of [t1]) < 0.51 * peak
  /\ 0.99 * peak <= tallest_peak (figure_of [t80])
  /\ tallest_peak (figure_of [t80]) <> tallest_peak (figure_of [t1]).
Proof.
  intros t1 t80 peak.
  pose proof sqrt_2PI_pos as Hq.
  assert (Hpk : 0 < peak) by (apply Rdiv_lt_0_compat; lra).
  assert (H1 : 0 < std_dev t1) by (simpl; lra).
  assert (Hvalues : forall v, In (Some v) (pdf_scaled 1900 1) ->
                              v < 0.51 * peak).
  { intros v Hv. apply In_pdf_scaled in Hv; [| lra].
    destruct Hv as (x0 & Hx0 & ->). now apply narrow_curve_values_low. }
  assert (Hlow : tallest_peak (figure_of [t1]) < 0.51 * peak).
  { assert (Hvalid : Forall (fun t => 0 < std_dev t) [t1])
      by (constructor; [exact H1 | constructor]).
    destruct (tallest_peak_spec [t1] Hvalid ltac:(discriminate))
      as [(l & Hl & Hy) _].
    destruct (figure_line_inv [t1] l Hl) as (j & t & [<- | []] & ->).
    apply Hvalues. exact Hy. }
  assert (Hhigh : 0.99 * peak <= tallest_peak (figure_of [t80])).
  { assert (Hvalid : Forall (fun t => 0 < std_dev t) [t80])
      by (constructor; [simpl; lra | constructor]).
    pose proof (tallest_peak_ge_sample [t80] 0 t80 _ Hvalid eq_refl x_249)
      as Hge.
    cbn [mean_elo std_dev t80] in Hge.
    replace (80 * 1) with 80 in Hge by lra.
    apply Rle_trans with (2 := Hge). apply wide_curve_value_high. }
  split; [exact H1 |].
  split; [exact mean_1900_off_grid |].
  split.
  { intros Hin. apply Hvalues in Hin. lra. }
  split; [exact Hlow |]. split; [exact Hhigh | lra].
Qed.

(** C1, amended: for a positive spread the rescaling formula at the mean
    gives [2.5 / sqrt(2*pi)] whatever the spread, and multiplying the spread
    by a positive factor [c] divides the unscaled density at the mean by [c]
    and leaves that value unchanged.  The rendered curve is the formula on
    the 500 samples of the grid: the value drawn at the sample [x0] is
    [2.5 / sqrt(2*pi) * exp(-((x0 - mean) / spread)^2 / 2)], never more than
    [2.5 / sqrt(2*pi)], and the curve reaches that height when the mean is
    one of the samples.  For a mean between two samples the height of the
    rendered peak is not promised. *)
Theorem rendered_curve_samples_formula (teams : list team) (i : nat)
        (t : team) (c : R) :
  nth_error teams i = Some t ->
  0 < std_dev t ->
  0 < c ->
  let mean := mean_elo t in
  let std := std_dev t in
  let peak := 2.5 / sqrt (2 * PI) in
  pdf_scaled_at mean mean std = Some peak
  /\ stats.norm_pdf mean mean (c * std)
     = option_map (fun p => p / c) (stats.norm_pdf mean mean std)
  /\ pdf_scaled_at mean mean (c * std) = pdf_scaled_at mean mean std
  /\ exists l,
       nth_error (lines (figure_of teams)) i = Some l
       /\ l_ydata l
          = map (fun x0 =>
                   Some (peak * exp (- ((x0 - mean) / std) ^ 2 / 2))) x
       /\ Forall (fun y => exists v, y = Some v /\ v <= peak) (l_ydata l)
       /\ (In mean x -> In (Some peak) (l_ydata l)).
Proof.
  intros Hi Hs Hc. cbv zeta.
  pose proof sqrt_2PI_pos as Hq.
  destruct (formula_at_mean (mean_elo t) (std_dev t) c Hs Hc)
    as (Hpeak & Hdiv & Hsame).
  split; [exact Hpeak |]. split; [exact Hdiv |]. split; [exact Hsame |].
  exists (line_of i t). rewrite figure_lines_nth_error, Hi.
  split; [reflexivity |]. cbn [l_ydata line_of].
  split; [| split].
  - unfold pdf_scaled. apply map_ext. intros x0.
    rewrite pdf_scaled_at_valid by assumption.
    unfold stats._norm_pdf. f_equal.
    set (z := (x0 - mean_elo t) / std_dev t).
    replace (- z ^ 2 / 2) with (- (z * z) / 2) by (simpl; lra).
    field. lra.
  - pose proof (pdf_scaled_values (mean_elo t) (std_dev t) Hs) as Hv.
    rewrite Forall_forall in Hv. apply Forall_forall. intros y Hy.
    destruct (Hv y Hy) as (v & -> & Hbounds).
    exists v. split; [reflexivity | apply Hbounds].
  - intros Hin. unfold pdf_scaled. apply in_map_iff.
    exists (mean_elo t). split; [exact Hpeak | exact Hin].
Qed.

Lemma rendered_curve_samples_formula_witness :
  let t := {| rank := 1; team_name := "Duke Blue Devils";
              mean_elo := 1200; std_dev := 100 |} in
  In (mean_elo t) x
  /\ exists l,
       nth_error (lines (figure_of [t])) 0 = Some l
       /\ In (Some (2.5 / sqrt (2 * PI))) (l_ydata l).
Proof.
  intros t.
  assert (Hs : 0 < std_dev t) by (simpl; lra).
  assert (Hc : 0 < 2) by lra.
  destruct (rendered_curve_samples_formula [t] 0 t 2 eq_refl Hs Hc)
    as (_ & _ & _ & l & Hl & _ & _ & Hreach).
  split; [exact x_first |].
  exists l. split; [exact Hl | exact (Hreach x_first)].
Defined.

(** ** Inputs without a valid spread *)

Lemma flat_map_nil {A B : Type} (f : A -> list B) (l : list A) :
  (forall a, In a l -> f a = []) -> flat_map f l = [].
Proof.
  induction l as [| a l IH]; simpl; [easy |]. intros H.
  rewrite (H a) by now left. apply IH. intros b Hb. apply H. now right.
Qed.

Lemma poly_extent_all_nan (p : PolyCollection) :
  all_nan (p_y1 p) -> autoscale.poly_extent p = [].
Proof.
  unfold autoscale.poly_extent. intros Hnan. apply flat_map_nil.
  unfold all_nan in Hnan. rewrite Forall_forall in Hnan.
  intros y Hy. now rewrite (Hnan y Hy).
Qed.

(** X11: when the input is not empty and no record has a positive spread,
    every curve is NaN throughout and there is no finite value to scale the
    axis to: the axes report the view of artists without data,
    (-0.055, 0.055), and the vertical axis is set to (0, 0.05775). *)
Theorem no_valid_spread_view (teams : list team) :
  teams <> [] ->
  Forall (fun t => std_dev t <= 0) teams ->
  Forall (fun l => all_nan (l_ydata l)) (lines (figure_of teams))
  /\ autoscale.data_y (figure_of teams) = []
  /\ tallest_peak (figure_of teams) = 0
  /\ get_ylim (plot_teams 0 teams subplots) = (- 0.055, 0.055)
  /\ ylim (figure_of teams) = Some (0, 0.05775).
Proof.
  intros Hne Hbad. rewrite Forall_forall in Hbad.
  assert (Hlines : Forall (fun l => all_nan (l_ydata l))
                          (lines (figure_of teams))).
  { apply Forall_forall. intros l Hl.
    destruct (figure_line_inv teams l Hl) as (j & t & Ht & ->).
    cbn [l_ydata line_of]. apply pdf_scaled_all_nan. now apply Hbad. }
  assert (Hld : flat_map (fun l => autoscale.finite (l_ydata l))
                         (lines (figure_of teams)) = []).
  { apply flat_map_nil. intros l Hl. apply finite_all_nan.
    rewrite Forall_forall in Hlines. now apply Hlines. }
  assert (Hdata : autoscale.data_y (figure_of teams) = []).
  { unfold autoscale.data_y. rewrite Hld. cbn [app].
    apply flat_map_nil. intros p Hp.
    destruct (figure_collection_inv teams p Hp) as (j & t & Ht & -> & _).
    apply poly_extent_all_nan. cbn [p_y1 fill_of].
    apply pdf_scaled_all_nan. now apply Hbad. }
  assert (Hview : autoscale.view_y (figure_of teams) = (- 0.055, 0.055)).
  { unfold autoscale.view_y. rewrite Hdata.
    destruct (lines (figure_of teams)) as [| l ls] eqn:El.
    - exfalso. apply Hne. apply length_zero_iff_nil.
      rewrite <- (figure_lines_length teams), El. reflexivity.
    - unfold autoscale.ymargin. f_equal; lra. }
  destruct (figure_ylim teams) as [Hy Hget].
  split; [exact Hlines |]. split; [exact Hdata |].
  split; [unfold tallest_peak; now rewrite Hld |].
  split; [now rewrite Hget |].
  rewrite Hy, Hget, Hview. cbn [snd]. do 2 f_equal. lra.
Qed.

Lemma no_valid_spread_view_witness :
  let t0 := {| rank := 1; team_name := "Duke Blue Devils";
               mean_elo := 1900; std_dev := 0 |} in
  ylim (figure_of [t0]) = Some (0, 0.05775).
Proof.
  intros t0.
  assert (Hne : [t0] <> []) by discriminate.
  assert (Hbad : Forall (fun t => std_dev t <= 0) [t0]).
  { constructor; [simpl; lra | constructor]. }
  destruct (no_valid_spread_view [t0] Hne Hbad) as (_ & _ & _ & _ & Hy).
  exact Hy.
Defined.
